(** * Clawtherion: the tide-pool counter, its admin channel and its stall detector

    A shallow embedding of [src/server.js].  The server is a set of async
    request handlers over three external resources: a Postgres pool, the
    Telegram [sendMessage] endpoint and the process-local [pendingConfirm]
    object.  Every handler is embedded as a finite tree of effects
    ([Prog]), one node per [await]ed call, so that the same definition can be

    - run to completion against a world ([run]), which is what a single
      request does when nothing else is in flight, and
    - interleaved with other requests at its [await]s ([run_schedule]),
      which is what Node does with concurrent requests.

    Conventions of the embedding:

    - a JavaScript number that holds an integer is a [Z].  [parseInt]
      rounds what it reads to binary64 and [String(n)] prints the
      shortest numeral of the binary64 value, in exponent form from
      10^21 on, as the engine does; the arithmetic of the click counter
      ([count+1], the comparisons with the target) is on the integers,
      which is what the server computes while the counter stays below
      2^53.  The one expression whose value depends on binary64 rounding
      of small numbers, [Math.round((n/target)*100)], is evaluated on
      primitive floats.
    - a JavaScript string is the [string] of its UTF-8 bytes, as it
      arrives in a request body and leaves for the store and for
      Telegram; [trim], [length] and [slice] work on the characters that
      the bytes encode.
    - the body of a webhook request is the value that [express.json()]
      parsed, of any shape.
    - time is one clock in milliseconds, read by [Date.now()] and by SQL
      [NOW()].

    Embedded: [initDB], the state accessors, [tg], the anti-spam helpers,
    POST /click, POST /webhook with every command, [handleConfirmed] and
    the stall check.  The static site, GET /state, GET /ping and
    GET /setup-webhook read or forward without deciding anything and are
    left out. *)

From Stdlib Require Import ZArith Ascii String List Bool Lia.
From Stdlib Require Import Decimal DecimalString DecimalPos.
From Stdlib Require Import Floats SpecFloat.
From stdpp Require Import base option list gmap strings.

#[local] Open Scope string_scope.
#[local] Open Scope Z_scope.

(** ** JavaScript primitives used by the server *)

Module Js.

(** *** Strings *)

Definition code (c : ascii) : Z := Z.of_N (N_of_ascii c).

(** A byte that continues a UTF-8 sequence. *)
Definition is_cont (c : ascii) : bool := (128 <=? code c) && (code c <? 192).

Fixpoint chars_aux (s : string) : string * list string :=
  match s with
  | EmptyString => (EmptyString, [])
  | String c r =>
      let '(p, d) := chars_aux r in
      if is_cont c then (String c p, d) else (EmptyString, String c p :: d)
  end.

(** The characters of a text, each as its UTF-8 bytes. *)
Definition chars (s : string) : list string :=
  let '(p, d) := chars_aux s in
  match p with EmptyString => d | _ => p :: d end.

Definition cat (l : list string) : string := foldr String.append EmptyString l.

(** White space and line terminators of ECMAScript: TAB, LF, VT, FF, CR,
    SPACE, U+00A0, U+1680, U+2000 to U+200A, U+2028, U+2029, U+202F,
    U+205F, U+3000 and U+FEFF. *)
Definition is_space (ch : string) : bool :=
  match ch with
  | String c EmptyString =>
      ((9 <=? code c) && (code c <=? 13)) || (code c =? 32)
  | String c1 (String c2 EmptyString) =>
      (code c1 =? 194) && (code c2 =? 160)
  | String c1 (String c2 (String c3 EmptyString)) =>
      ((code c1 =? 225) && (code c2 =? 154) && (code c3 =? 128))
      || ((code c1 =? 226) && (code c2 =? 128)
          && (((128 <=? code c3) && (code c3 <=? 138)) || (code c3 =? 168)
              || (code c3 =? 169) || (code c3 =? 175)))
      || ((code c1 =? 226) && (code c2 =? 129) && (code c3 =? 159))
      || ((code c1 =? 227) && (code c2 =? 128) && (code c3 =? 128))
      || ((code c1 =? 239) && (code c2 =? 187) && (code c3 =? 191))
  | _ => false
  end.

Fixpoint drop_space (l : list string) : list string :=
  match l with
  | ch :: r => if is_space ch then drop_space r else l
  | [] => []
  end.

Definition trimStart (s : string) : string := cat (drop_space (chars s)).

Definition trim (s : string) : string :=
  cat (rev (drop_space (rev (drop_space (chars s))))).

Definition lower (c : ascii) : ascii :=
  let n := nat_of_ascii c in
  if Nat.leb 65 n && Nat.leb n 90 then ascii_of_nat (n + 32) else c.

(** [s.toLowerCase()] on the letters whose lower case is an ASCII letter:
    A to Z and the Kelvin sign U+212A.  Other cased letters outside ASCII
    are left as they are; none of them maps into ASCII. *)
Fixpoint toLowerCase (s : string) : string :=
  match s with
  | EmptyString => EmptyString
  | String c r =>
      match r with
      | String c2 (String c3 r') =>
          if (code c =? 226) && (code c2 =? 132) && (code c3 =? 170)
          then String "k" (toLowerCase r')
          else String (lower c) (toLowerCase r)
      | _ => String (lower c) (toLowerCase r)
      end
  end.

(** [s.split(sep)] for a one-character separator: never the empty list. *)
Fixpoint split (sep : ascii) (s : string) : list string :=
  match s with
  | EmptyString => [EmptyString]
  | String c r =>
      if Ascii.eqb c sep then EmptyString :: split sep r
      else match split sep r with
           | h :: t => String c h :: t
           | [] => [String c EmptyString]
           end
  end.

Fixpoint join (sep : string) (l : list string) : string :=
  match l with
  | [] => EmptyString
  | [x] => x
  | x :: rest => x +:+ sep +:+ join sep rest
  end.

(** The UTF-16 code units of a character: two from U+10000 on. *)
Definition units (ch : string) : nat :=
  match ch with
  | String c _ => if 240 <=? code c then 2 else 1
  | EmptyString => 0
  end.

(** [s.length] *)
Definition length (s : string) : nat := sum_list (units <$> chars s).

(** U+FFFD, which the UTF-8 encoder writes for half of a surrogate pair. *)
Definition replacement : string :=
  String (ascii_of_nat 239) (String (ascii_of_nat 191) (String (ascii_of_nat 189) EmptyString)).

Fixpoint take_units (n : nat) (l : list string) : list string :=
  match l with
  | [] => []
  | ch :: r =>
      if Nat.leb (units ch) n then ch :: take_units (n - units ch) r
      else if Nat.eqb n 0 then [] else [replacement]
  end.

(** [s.slice(0, n)], as it is written out in UTF-8. *)
Definition slice0 (n : nat) (s : string) : string := cat (take_units n (chars s)).

(** [`${v}`] for a value that is a string or [null]. *)
Definition show (v : option string) : string := default "null" v.

(** A string is truthy when it is not empty; [null] is falsy. *)
Definition truthy (v : option string) : bool :=
  match v with
  | Some (String _ _) => true
  | _ => false
  end.

(** [v || d] for a value that is a string or [null]. *)
Definition or_str (v : option string) (d : string) : string :=
  match v with
  | Some (String c r) => String c r
  | _ => d
  end.

(** *** Numbers *)

(** The decimal numeral of an integer. *)
Definition decimal (z : Z) : string := NilZero.string_of_int (Z.to_int z).

(** The binary64 value nearest to the integer [z], ties to the even
    significand.  Every integer below 2^53 in magnitude is a binary64
    value; a larger one is [q * 2^e] with a significand [q] of 53 bits.
    The magnitude 2^1024 stands for Infinity. *)
Definition round64 (z : Z) : Z :=
  let a := Z.abs z in
  if a <? 2 ^ 53 then z
  else
    let e := Z.log2 a - 52 in
    let q := a / 2 ^ e in
    let r := a mod 2 ^ e in
    let q' := if 2 * r <? 2 ^ e then q
              else if 2 ^ e <? 2 * r then q + 1
              else if Z.even q then q else q + 1 in
    Z.sgn z * Z.min (q' * 2 ^ e) (2 ^ 1024).

(** The position of the decimal point of [X/D > 0]: the first [n], from
    the start value on, with [X/D < 10^n]. *)
Fixpoint point_from (fuel : nat) (n X D : Z) : Z :=
  match fuel with
  | O => n
  | S fuel' =>
      if (if 0 <=? n then X <? D * 10 ^ n else X * 10 ^ (- n) <? D) then n
      else point_from fuel' (n + 1) X D
  end.

Definition zeros (n : Z) : string := cat (replicate (Z.to_nat n) "0").

(** The digits [s] (there are [k] of them) and the position [n] of the
    decimal point, laid out as [Number::toString] does: plain up to 21
    integer digits and down to 6 leading zeros, exponent form beyond. *)
Definition layout (s n : Z) : string :=
  let ds := decimal s in
  let k := Z.of_nat (String.length ds) in
  if (k <=? n) && (n <=? 21) then ds +:+ zeros (n - k)
  else if (0 <? n) && (n <=? 21) then
    substring 0 (Z.to_nat n) ds +:+ "." +:+ substring (Z.to_nat n) (Z.to_nat (k - n)) ds
  else if (-6 <? n) && (n <=? 0) then "0." +:+ zeros (- n) +:+ ds
  else
    (if k =? 1 then ds
     else substring 0 1 ds +:+ "." +:+ substring 1 (Z.to_nat (k - 1)) ds)
    +:+ "e" +:+ (if n - 1 <? 0 then "-" else "+") +:+ decimal (Z.abs (n - 1)).

(** The [k] digits [s] with [s * 10^(n-k)] nearest to [X/D], if that
    product rounds to the binary64 value: it lies between [LO/D] and
    [HI/D], the ends included when the significand is even. *)
Definition candidate (even : bool) (LO X HI D k n : Z) : option Z :=
  let A := D * 10 ^ Z.max (n - k) 0 in
  let dn := 10 ^ Z.max (k - n) 0 in
  let ok (s : Z) : bool :=
    (10 ^ (k - 1) <=? s) && (s <? 10 ^ k) &&
    (if even then (LO * dn <=? s * A) && (s * A <=? HI * dn)
     else (LO * dn <? s * A) && (s * A <? HI * dn)) in
  let s0 := X * dn / A in
  let s1 := s0 + 1 in
  match ok s0, ok s1 with
  | true, true =>
      if X * dn - s0 * A <? s1 * A - X * dn then Some s0
      else if s1 * A - X * dn <? X * dn - s0 * A then Some s1
      else if Z.even s0 then Some s0 else Some s1
  | true, false => Some s0
  | false, true => Some s1
  | false, false => None
  end.

Fixpoint fewest (fuel : nat) (even : bool) (LO X HI D n0 k : Z) : string :=
  match fuel with
  | O => EmptyString
  | S fuel' =>
      match candidate even LO X HI D k n0, candidate even LO X HI D k (n0 + 1) with
      | Some s, _ => layout s n0
      | None, Some s => layout s (n0 + 1)
      | None, None => fewest fuel' even LO X HI D n0 (k + 1)
      end
  end.

(** The numeral of the positive binary64 value [m * 2^e], [m] its
    significand: the fewest digits that round to the value (17 always
    do) and, among those, the nearest to it.  The values are kept as
    numerators over [D]; the value below is half as far when [m] is the
    least significand of its exponent. *)
Definition shortest (m e : Z) : string :=
  let E := Z.max 0 (- e) in
  let u := 2 ^ (e + E) in
  let D := 4 * 2 ^ E in
  let X := 4 * m * u in
  let HI := X + 2 * u in
  let LO := X - (if (m =? 2 ^ 52) && (-1074 <? e) then u else 2 * u) in
  fewest 17 (Z.even m) LO X HI D (point_from 700 (-330) X D) 1.

(** [String(n)] and [`${n}`] for a number that holds the integer [z]:
    below 2^53 the shortest numeral of an integer is its decimal
    expansion. *)
Definition toString (z : Z) : string :=
  if Z.abs z <? 2 ^ 53 then decimal z
  else
    let v := Z.abs (round64 z) in
    (if z <? 0 then "-" else "") +:+
    (if 2 ^ 1024 <=? v then "Infinity"
     else shortest (v / 2 ^ (Z.log2 v - 52)) (Z.log2 v - 52)).

(** [String(x)] for any binary64 value. *)
Definition Number_toString (x : float) : string :=
  match Prim2SF x with
  | S754_nan => "NaN"
  | S754_infinity false => "Infinity"
  | S754_infinity true => "-Infinity"
  | S754_zero _ => "0"
  | S754_finite s m e => (if s then "-" else "") +:+ shortest (Z.pos m) e
  end.

Definition digit (radix : Z) (c : ascii) : option Z :=
  let n := Z.of_nat (nat_of_ascii c) in
  let d := if (48 <=? n) && (n <=? 57) then Some (n - 48)
           else if (97 <=? n) && (n <=? 122) then Some (n - 87)
           else if (65 <=? n) && (n <=? 90) then Some (n - 55)
           else None in
  match d with
  | Some v => if v <? radix then Some v else None
  | None => None
  end.

(** The longest prefix of radix digits, read most significant first;
    [None] when it is empty. *)
Fixpoint digits (radix : Z) (s : string) (acc : option Z) : option Z :=
  match s with
  | EmptyString => acc
  | String c r =>
      match digit radix c with
      | Some d => digits radix r (Some (default 0 acc * radix + d))
      | None => acc
      end
  end.

(** [parseInt] after the white space and the sign: a 0x prefix selects
    radix 16. *)
Definition unsigned (s2 : string) : option Z :=
  let '(radix, s3) :=
    match s2 with
    | String "0" (String "x" r) => (16, r)
    | String "0" (String "X" r) => (16, r)
    | _ => (10, s2)
    end in
  digits radix s3 None.

(** The integer that the text spells, before it is made a number. *)
Definition spelled (s : string) : option Z :=
  match trimStart s with
  | String "-" r => Z.opp <$> unsigned r
  | String "+" r => unsigned r
  | s1 => unsigned s1
  end.

(** [parseInt(s)] with no radix argument: [None] is NaN, and the integer
    read is rounded to binary64 as V8 does for any number of digits. *)
Definition parseInt (s : string) : option Z := round64 <$> spelled s.

(** [parseInt(v)] for a value that is a string or [null]:
    [parseInt(null)] reads the text null, which has no digit. *)
Definition parseInt' (v : option string) : option Z := v ≫= parseInt.

(** [x || d] for a number [x]: NaN and 0 are falsy. *)
Definition or_num (x : option Z) (d : Z) : Z :=
  match x with
  | Some 0 | None => d
  | Some n => n
  end.

(** [!n || n < 1] *)
Definition not_positive (x : option Z) : bool :=
  match x with
  | None => true
  | Some n => (n =? 0) || (n <? 1)
  end.

(** *** binary64 *)

(** The double nearest to an integer. *)
Definition of_Z (z : Z) : float := SF2Prim (binary_normalize prec emax z 0 false).

(** What [Math.round] returns, read back as a number that the template
    can print. *)
Inductive number :=
| NaN
| Infinity (negative : bool)
| Int (z : Z).

(** [Math.round(x)]: the integer nearest to [x], ties towards +infinity. *)
Definition Math_round (x : float) : number :=
  match Prim2SF x with
  | S754_nan => NaN
  | S754_infinity s => Infinity s
  | S754_zero _ => Int 0
  | S754_finite s m e =>
      let v := if s then Z.neg m else Z.pos m in
      if 0 <=? e then Int (v * 2 ^ e)
      else Int ((2 * v + 2 ^ (- e)) / 2 ^ (- e + 1))
  end.

Definition number_toString (x : number) : string :=
  match x with
  | NaN => "NaN"
  | Infinity false => "Infinity"
  | Infinity true => "-Infinity"
  | Int z => toString z
  end.

(** [Math.round((a / b) * 100)] *)
Definition percent (a b : option Z) : number :=
  match a, b with
  | Some x, Some y => Math_round (PrimFloat.mul (PrimFloat.div (of_Z x) (of_Z y)) (of_Z 100))
  | _, _ => NaN
  end.

(** *** Values parsed from JSON *)

(** What [express.json()] leaves in [req.body], and [undefined]. *)
#[warnings="-register-all"]
Inductive value :=
| Undefined
| Null
| Bool (b : bool)
| Num (x : float)
| Str (s : string)
| Arr (elems : list value)
| Obj (props : list (string * value)).

(** [!!v] *)
Definition truthy_value (v : value) : bool :=
  match v with
  | Undefined | Null => false
  | Bool b => b
  | Num x => negb (PrimFloat.eqb x 0 || PrimFloat.is_nan x)
  | Str s => negb (String.eqb s "")
  | Arr _ | Obj _ => true
  end.

(** The property [k] of a parsed object: when the text has a key twice,
    [JSON.parse] keeps the last. *)
Definition own (k : string) (props : list (string * value)) : option value :=
  foldl (λ found p, if String.eqb p.1 k then Some p.2 else found) None props.

(** [v?.k] for a name that no prototype defines (the handler reads
    message, chat, id and text): a property of an object, [undefined] on
    anything else. *)
Definition get (k : string) (v : value) : value :=
  match v with
  | Obj props => default Undefined (own k props)
  | _ => Undefined
  end.

(** The message of the TypeError that V8 throws when an object has no
    primitive value. *)
Definition no_primitive : string := "Cannot convert object to primitive value".

(** [String(v)]: the text, or the message of the TypeError thrown.  An
    array is its elements joined by commas, [null] elements empty.  An
    object is the text [object Object], unless the parsed text gave it a
    property toString of its own: that is no function, and the inherited
    [valueOf] returns the object, so the conversion throws. *)
Fixpoint String_ (v : value) : string + string :=
  match v with
  | Undefined => inl "undefined"
  | Null => inl "null"
  | Bool true => inl "true"
  | Bool false => inl "false"
  | Num x => inl (Number_toString x)
  | Str s => inl s
  | Arr elems =>
      (fix joined (l : list value) : string + string :=
         let elem (x : value) : string + string :=
           match x with
           | Undefined | Null => inl EmptyString
           | _ => String_ x
           end in
         match l with
         | [] => inl EmptyString
         | [x] => elem x
         | x :: rest =>
             match elem x, joined rest with
             | inl a, inl b => inl (a +:+ "," +:+ b)
             | inr e, _ => inr e
             | _, inr e => inr e
             end
         end) elems
  | Obj props =>
      match own "toString" props with
      | Some _ => inr no_primitive
      | None => inl "[object Object]"
      end
  end.

End Js.

(** ** The world outside the handlers *)

(** A row of [clicks]: [ip TEXT], [clicked_at TIMESTAMPTZ DEFAULT NOW()]. *)
Record ClickRecord := { ip : string; clicked_at : Z }.

(** A row of [logs]: [event], [detail], [created_at DEFAULT NOW()]. *)
Record LogEntry := { event : string; detail : string; created_at : Z }.

(** The three tables.  [state] has [key TEXT PRIMARY KEY], hence a finite
    map; [clicks] and [logs] are kept in insertion order. *)
Record Database := {
  state : gmap string string;
  clicks : list ClickRecord;
  logs : list LogEntry
}.

(** An entry of the process-local [pendingConfirm] object. *)
Record Pending := { command : string; expiresAt : Z }.

(** Everything a handler can read or change.  [sent] lists the texts
    delivered to Telegram, oldest first.  [faults] is the fate of the next
    I/O calls ([pool.query] or [fetch]), one entry per call: [Some msg]
    makes the call reject with an error of that message; when the list is
    used up every call succeeds. *)
Record World := {
  db : Database;
  clock : Z;
  sent : list string;
  pendingConfirm : gmap string Pending;
  faults : list (option string)
}.

Definition set_state (f : gmap string string → gmap string string) (d : Database) : Database :=
  {| state := f (state d); clicks := clicks d; logs := logs d |}.

Definition set_clicks (f : list ClickRecord → list ClickRecord) (d : Database) : Database :=
  {| state := state d; clicks := f (clicks d); logs := logs d |}.

Definition set_logs (f : list LogEntry → list LogEntry) (d : Database) : Database :=
  {| state := state d; clicks := clicks d; logs := f (logs d) |}.

Definition hours (n : Z) : Z := n * 60 * 60 * 1000.

(** The SQL statements of the server, indexed by what the caller reads
    from the result. *)
Inductive Sql : Type → Type :=
| CreateTable (name : string) : Sql unit
    (* CREATE TABLE IF NOT EXISTS name (...) *)
| InsertStateDoNothing (k v : string) : Sql unit
    (* INSERT INTO state (key, value) VALUES ($1, $2) ON CONFLICT (key) DO NOTHING *)
| SelectValue (k : string) : Sql (list string)
    (* SELECT value FROM state WHERE key=$1 *)
| UpsertState (k v : string) : Sql unit
    (* INSERT INTO state ... ON CONFLICT (key) DO UPDATE SET value=EXCLUDED.value *)
| SelectState : Sql (list (string * string))
    (* SELECT key, value FROM state *)
| InsertLog (e d : string) : Sql unit
    (* INSERT INTO logs (event, detail) VALUES ($1, $2) *)
| SelectClicksOf (who : string) : Sql (list ClickRecord)
    (* SELECT id FROM clicks WHERE ip=$1 AND clicked_at > NOW() - INTERVAL '24 hours' *)
| InsertClick (who : string) : Sql unit
    (* INSERT INTO clicks (ip) VALUES ($1) *)
| CountClicksSince (h : Z) : Sql string
    (* SELECT COUNT( * ) as cnt FROM clicks WHERE clicked_at>NOW()-INTERVAL 'h hours';
       node-postgres hands a bigint over as its decimal text *)
| SelectLastLogs : Sql (list LogEntry)
    (* SELECT event,detail,created_at FROM logs ORDER BY created_at DESC LIMIT 20 *)
| Select1 : Sql unit
    (* SELECT 1 *)
| UpdateState (keys : list string) (v : string) : Sql unit
    (* UPDATE state SET value=v WHERE key IN keys *)
| DeleteClicks : Sql unit.
    (* DELETE FROM clicks *)

Definition recent (now h : Z) (c : ClickRecord) : bool := now - hours h <? clicked_at c.

(** [UPDATE state SET value=v WHERE key IN keys]: only rows that exist. *)
Definition update_rows (keys : list string) (v : string) (m : gmap string string)
  : gmap string string :=
  foldr (λ k m', alter (λ _, v) k m') m keys.

(** One statement against the database at time [now]. *)
Definition exec_sql {X} (q : Sql X) (now : Z) (d : Database) : X * Database :=
  match q in Sql X return X * Database with
  | CreateTable _ => (tt, d)
  | InsertStateDoNothing k v =>
      (tt, set_state (λ m, match m !! k with Some _ => m | None => <[k:=v]> m end) d)
  | SelectValue k =>
      (match state d !! k with Some v => [v] | None => [] end, d)
  | UpsertState k v => (tt, set_state (insert k v) d)
  | SelectState => (map_to_list (state d), d)
  | InsertLog e t =>
      (tt, set_logs (λ l, (l ++ [{| event := e; detail := t; created_at := now |}])%list) d)
  | SelectClicksOf who =>
      (filter (λ c, String.eqb (ip c) who && recent now 24 c = true) (clicks d), d)
  | InsertClick who =>
      (tt, set_clicks (λ l, (l ++ [{| ip := who; clicked_at := now |}])%list) d)
  | CountClicksSince h =>
      (Js.decimal (Z.of_nat (length (filter (λ c, recent now h c = true) (clicks d)))), d)
  | SelectLastLogs => (take 20 (reverse (logs d)), d)
  | Select1 => (tt, d)
  | UpdateState keys v =>
      (tt, set_state (update_rows keys v) d)
  | DeleteClicks => (tt, set_clicks (λ _, []) d)
  end.

(** ** Handlers as trees of effects *)

(** What a handler asks of its environment.  [Query] and [Fetch] are
    awaited I/O: other requests may run before the answer arrives.  The
    other three are synchronous reads and writes of process memory. *)
Inductive Eff : Type → Type :=
| Query {X} (q : Sql X) : Eff X              (* await pool.query(q) *)
| Fetch (text : string) : Eff unit           (* await fetch(.../sendMessage, {chat_id: ADMIN_CHAT, text}) *)
| DateNow : Eff Z                            (* Date.now() *)
| GetPending (chat : string) : Eff (option Pending)     (* pendingConfirm[chat] *)
| SetPending (chat : string) (p : Pending) : Eff unit   (* pendingConfirm[chat] = p *)
| DeletePending (chat : string) : Eff unit.             (* delete pendingConfirm[chat] *)

Definition awaited {X} (op : Eff X) : bool :=
  match op with
  | Query _ | Fetch _ => true
  | _ => false
  end.

(** An async function body: it returns, throws, or performs an effect and
    goes on with its outcome (a value, or the message of the error the call
    rejected with). *)
Inductive Prog (A : Type) : Type :=
| Ret (a : A)
| Throw (e : string)
| Vis {X : Type} (op : Eff X) (k : X + string → Prog A).

Arguments Ret {A} a.
Arguments Throw {A} e.
Arguments Vis {A X} op k.

Fixpoint bind {A B} (m : Prog A) (f : A → Prog B) : Prog B :=
  match m with
  | Ret a => f a
  | Throw e => Throw e
  | Vis op k => Vis op (λ r, bind (k r) f)
  end.

#[global] Instance Prog_ret : MRet Prog := @Ret.
#[global] Instance Prog_bind : MBind Prog := λ A B f m, bind m f.

(** [try { m } catch (e) { h(e) }] *)
Fixpoint try_catch {A} (m : Prog A) (h : string → Prog A) : Prog A :=
  match m with
  | Ret a => Ret a
  | Throw e => h e
  | Vis op k => Vis op (λ r, try_catch (k r) h)
  end.

(** Performing an effect: a rejected call throws at the [await]. *)
Definition perform {X} (op : Eff X) : Prog X :=
  Vis op (λ r, match r with inl x => Ret x | inr e => Throw e end).

Definition use_fault (w : World) : World :=
  {| db := db w; clock := clock w; sent := sent w;
     pendingConfirm := pendingConfirm w; faults := tail (faults w) |}.

Definition with_db (d : Database) (w : World) : World :=
  {| db := d; clock := clock w; sent := sent w;
     pendingConfirm := pendingConfirm w; faults := faults w |}.

Definition with_sent (l : list string) (w : World) : World :=
  {| db := db w; clock := clock w; sent := l;
     pendingConfirm := pendingConfirm w; faults := faults w |}.

Definition with_pending (p : gmap string Pending) (w : World) : World :=
  {| db := db w; clock := clock w; sent := sent w;
     pendingConfirm := p; faults := faults w |}.

(** The next I/O call fails with this message, if any. *)
Definition next_fault (w : World) : option string :=
  match faults w with
  | Some e :: _ => Some e
  | _ => None
  end.

(** One effect against the world. *)
Definition exec_eff {X} (op : Eff X) (w : World) : (X + string) * World :=
  match op in Eff X return (X + string) * World with
  | Query q =>
      match next_fault w with
      | Some e => (inr e, use_fault w)
      | None => let '(x, d) := exec_sql q (clock w) (db w) in
                (inl x, with_db d (use_fault w))
      end
  | Fetch text =>
      match next_fault w with
      | Some e => (inr e, use_fault w)
      | None => (inl tt, with_sent (sent w ++ [text])%list (use_fault w))
      end
  | DateNow => (inl (clock w), w)
  | GetPending chat => (inl (pendingConfirm w !! chat), w)
  | SetPending chat p => (inl tt, with_pending (<[chat:=p]> (pendingConfirm w)) w)
  | DeletePending chat => (inl tt, with_pending (delete chat (pendingConfirm w)) w)
  end.

(** A handler run from start to end with nothing else in flight: its
    value, or the error its promise rejects with, and the world it leaves. *)
Fixpoint run {A} (m : Prog A) (w : World) : (A + string) * World :=
  match m with
  | Ret a => (inl a, w)
  | Throw e => (inr e, w)
  | Vis op k => let '(r, w') := exec_eff op w in run (k r) w'
  end.

(** ** The server *)

Definition nl : string := String (ascii_of_nat 10) EmptyString.
Definition dq : string := String (ascii_of_nat 34) EmptyString.

Definition query {X} (q : Sql X) : Prog X := perform (Query q).

Definition defaults : list (string * string) :=
  [ ("count", "0"); ("target", "100"); ("ca", ""); ("launched", "false");
    ("locked", "false");
    ("lock_msg", "The tide is retreating. The depths are recalibrating.");
    ("decree", ""); ("tide_warning", ""); ("blessed", "") ].

Definition initDB : Prog unit :=
  query (CreateTable "state");;
  query (CreateTable "clicks");;
  query (CreateTable "logs");;
  foldr (λ '(k, v) rest, query (InsertStateDoNothing k v);; rest) (Ret tt) defaults.

(** [r.rows[0]?.value ?? null] *)
Definition getState (key : string) : Prog (option string) :=
  r ← query (SelectValue key);
  Ret (head r).

Definition setState (key value : string) : Prog unit :=
  query (UpsertState key value).

Definition getAllState : Prog (gmap string string) :=
  r ← query SelectState;
  Ret (foldl (λ obj row, <[row.1 := row.2]> obj) ∅ r).

Definition addLog (e : string) (d : string) : Prog unit :=
  query (InsertLog e d).

(** [tg] catches what [fetch] throws: it never rejects. *)
Definition tg (text : string) : Prog unit :=
  try_catch (perform (Fetch text)) (λ _, Ret tt).

Definition hasIPClicked (who : string) : Prog bool :=
  r ← query (SelectClicksOf who);
  Ret (Nat.ltb 0 (length r)).

Definition recordIPClick (who : string) : Prog unit :=
  query (InsertClick who).

(** *** POST /click *)

Inductive Body :=
| ClickBody (count target : Z) (launched : bool)   (* {count, target, launched} *)
| ErrorBody (error : string)                       (* {error} *)
| LockedBody (message : option string).            (* {error:'locked', message} *)

Record Response := { status : Z; body : Body }.

Definition halfway_text : string :=
  nl +:+ nl +:+ "<i>Halfway. The sediment stirs.</i>".
Definition three_quarters_text : string :=
  nl +:+ nl +:+ "<i>Three quarters. Something vast moves beneath.</i>".
Definition ten_remaining_text : string :=
  nl +:+ nl +:+ "⚠️ <i>10 remaining. The tide pool trembles.</i>".

Definition progress_head (n target : Z) : string :=
  "🌊 <b>Tide Update</b>" +:+ nl +:+ nl +:+ "<b>" +:+ Js.toString n +:+ " / "
  +:+ Js.toString target +:+ "</b> fed the tide pool ("
  +:+ Js.number_toString (Js.percent (Some n) (Some target)) +:+ "%)".

(** [Math.floor(target*0.5)] and [Math.floor(target*0.75)] are exact in
    binary64 for an integer below 2^51, hence integer divisions here. *)
Definition progress_text (n target : Z) : string :=
  progress_head n target
  +:+ (if n =? target / 2 then halfway_text else "")
  +:+ (if n =? 3 * target / 4 then three_quarters_text else "")
  +:+ (if n =? target - 10 then ten_remaining_text else "").

Definition blessed_text (n : Z) : string :=
  "🦞 <b>The Blessed One has arrived.</b>" +:+ nl +:+ "Click #" +:+ Js.toString n
  +:+ " has fed the tide pool.".

Definition launched_text (n : Z) : string :=
  "🎉 <b>THE TIDE POOL IS UNLEASHED</b>" +:+ nl +:+ nl +:+ "<b>" +:+ Js.toString n
  +:+ "</b> have offered themselves." +:+ nl +:+ nl +:+ "Send the CA now:" +:+ nl
  +:+ "<code>/setCA YourSolanaAddressHere</code>" +:+ nl +:+ nl
  +:+ "Or whenever you are ready.".

(** [blessed && parseInt(blessed)===n] *)
Definition blessed_is (blessed : option string) (n : Z) : bool :=
  Js.truthy blessed &&
  match Js.parseInt' blessed with Some b => b =? n | None => false end.

Definition is_true (v : option string) : bool :=
  match v with Some s => String.eqb s "true" | None => false end.

Definition click_handler (who : string) : Prog Response :=
  try_catch
    (clicked ← hasIPClicked who;
     if clicked : bool then Ret {| status := 429; body := ErrorBody "already_clicked" |} else
     locked ← getState "locked";
     if is_true locked then
       m ← getState "lock_msg";
       Ret {| status := 423; body := LockedBody m |}
     else
     c ← getState "count";
     t ← getState "target";
     let count := Js.or_num (Js.parseInt' c) 0 in
     let target := Js.or_num (Js.parseInt' t) 100 in
     let n := count + 1 in
     setState "count" (Js.toString n);;
     recordIPClick who;;
     addLog "click" ("IP:" +:+ who +:+ " Count:" +:+ Js.toString n);;
     (if Z.rem n 10 =? 0 then tg (progress_text n target) else Ret tt);;
     blessed ← getState "blessed";
     (if blessed_is blessed n then tg (blessed_text n) else Ret tt);;
     (if target <=? n then
        wasLaunched ← getState "launched";
        if is_true wasLaunched then Ret tt
        else setState "launched" "true";; tg (launched_text n)
      else Ret tt);;
     Ret {| status := 200; body := ClickBody n target (target <=? n) |})
    (λ e, Ret {| status := 500; body := ErrorBody e |}).

(** The [express-rate-limit] middleware in front of the handler (one hit
    per address and 24 hours).  Its hit store belongs to the library; its
    verdict on a request is an input here. *)
Definition clickLimiter (over_limit : bool) (next : Prog Response) : Prog Response :=
  if over_limit then Ret {| status := 429; body := ErrorBody "already_clicked" |}
  else next.

Definition post_click (over_limit : bool) (who : string) : Prog Response :=
  clickLimiter over_limit (click_handler who).

(** *** The recurring stall check *)

Definition stall_text (count target : option string) : string :=
  "😴 <b>Tide stalling</b>" +:+ nl +:+ nl +:+ "No offerings in 3 hours." +:+ nl
  +:+ "Count: <b>" +:+ Js.show count +:+ "/" +:+ Js.show target +:+ "</b>" +:+ nl +:+ nl
  +:+ "Post on X or use /decree to stir activity.".

(** The callback of [setInterval(..., 3*60*60*1000)]. *)
Definition idle_check : Prog unit :=
  try_catch
    (launched ← getState "launched";
     if is_true launched then Ret tt else
     cnt ← query (CountClicksSince 3);
     if bool_decide (Js.parseInt cnt = Some 0) then
       count ← getState "count";
       target ← getState "target";
       tg (stall_text count target)
     else Ret tt)
    (λ _, Ret tt).

(** *** Confirmed destructive commands *)

Definition reset_done_text : string := "✅ Reset complete. Count is 0. All cleared.".

Definition handleConfirmed (cmd : string) : Prog unit :=
  if String.eqb cmd "reset" then
    query (UpdateState ["count"] "0");;
    query (UpdateState ["ca"; "blessed"; "decree"; "tide_warning"] "");;
    query (UpdateState ["launched"] "false");;
    query DeleteClicks;;
    addLog "reset" "Full reset";;
    tg reset_done_text
  else Ret tt.

(** *** POST /webhook *)

(** A value, or the error thrown in its place. *)
Definition lift {A} (r : A + string) : Prog A :=
  match r with
  | inl a => Ret a
  | inr e => Throw e
  end.

(** A [try] body that leaves through [return p] hands the promise [p] back
    without awaiting it: what [p] rejects with is not caught by the
    [catch] around the [return]. *)
Definition done : Prog (Prog unit) := Ret (Ret tt).
Definition return_ (p : Prog unit) : Prog (Prog unit) := Ret p.

Definition default_lock_msg : string := "The tide is retreating. The depths are recalibrating.".
Definition default_warning : string := "The tide pool closes soon. The window is narrowing.".

(** The message of the TypeError that V8 throws at [(msg.text||'').trim()]
    when [msg.text] is truthy and no string. *)
Definition trim_missing : string :=
  "(msg.text || " +:+ dq +:+ dq +:+ ").trim is not a function".

(** [String(msg.chat?.id)] *)
Definition chat_of (msg : Js.value) : string + string :=
  Js.String_ (Js.get "id" (Js.get "chat" msg)).

(** [(msg.text||'').trim()] *)
Definition text_of (msg : Js.value) : string + string :=
  let t := Js.get "text" msg in
  if Js.truthy_value t then
    match t with
    | Js.Str s => inl (Js.trim s)
    | _ => inr trim_missing
    end
  else inl (Js.trim "").

Definition expired_text : string := "Confirmation expired. Send the command again.".
Definition settarget_usage : string := "Usage: /settarget 150".
Definition settarget_ok (n : Z) : string :=
  "✅ Target updated to <b>" +:+ Js.toString n +:+ "</b>.".
Definition reset_warning_text : string :=
  "⚠️ <b>RESET WARNING</b>" +:+ nl +:+ nl
  +:+ "This wipes count, CA, and all click records." +:+ nl +:+ nl
  +:+ "Reply <b>CONFIRM</b> within 60 seconds to proceed.".
Definition help_text : string :=
  "🦞 <b>Clawtherion Commands</b>" +:+ nl +:+ nl
  +:+ "/ping /count /status /today /velocity /logs" +:+ nl
  +:+ "/setCA &lt;addr&gt;" +:+ nl
  +:+ "/decree &lt;msg&gt; — /cleardecree" +:+ nl
  +:+ "/bless &lt;n&gt;" +:+ nl
  +:+ "/settarget &lt;n&gt;" +:+ nl
  +:+ "/lockdown [msg] — /unlock" +:+ nl
  +:+ "/tidewarning [msg] — /cleartidewarning" +:+ nl
  +:+ "/reset".

(** [`${v}`] for a property of the [getAllState] object, [undefined] when
    the row is missing. *)
Definition show_prop (v : option string) : string := default "undefined" v.

Definition status_text (s : gmap string string) : string :=
  "📊 <b>Status</b>" +:+ nl +:+ nl
  +:+ "Count: <b>" +:+ show_prop (s !! "count") +:+ "/" +:+ show_prop (s !! "target") +:+ "</b>" +:+ nl
  +:+ "Launched: <b>" +:+ show_prop (s !! "launched") +:+ "</b>" +:+ nl
  +:+ "Locked: <b>" +:+ show_prop (s !! "locked") +:+ "</b>" +:+ nl
  +:+ "CA: <b>" +:+ Js.or_str (s !! "ca") "not set" +:+ "</b>" +:+ nl
  +:+ "Decree: <b>" +:+ Js.or_str (s !! "decree") "none" +:+ "</b>" +:+ nl
  +:+ "Warning: <b>" +:+ Js.or_str (s !! "tide_warning") "none" +:+ "</b>" +:+ nl
  +:+ "Blessed: <b>" +:+ Js.or_str (s !! "blessed") "none" +:+ "</b>".

Definition pad2 (z : Z) : string :=
  if z <? 10 then "0" +:+ Js.toString z else Js.toString z.

(** [new Date(t).toISOString().slice(11,19)]: the UTC time of day. *)
Definition time_of_day (t : Z) : string :=
  pad2 ((t / 3600000) mod 24) +:+ ":" +:+ pad2 ((t / 60000) mod 60) +:+ ":"
  +:+ pad2 ((t / 1000) mod 60).

Definition log_line (row : LogEntry) : string :=
  "<code>" +:+ time_of_day (created_at row) +:+ "</code> <b>" +:+ event row +:+ "</b>"
  +:+ (match detail row with
       | EmptyString => ""
       | d => " — " +:+ Js.slice0 50 d
       end) +:+ nl.

Definition logs_text (rows : list LogEntry) : string :=
  foldl (λ out row, out +:+ log_line row) ("📋 <b>Last 20 events:</b>" +:+ nl +:+ nl) rows.

(** [(c6/6).toFixed(1)] printed from the integer [c6]: the six possible
    fractions round to the tenths 0, 2, 3, 5, 7 and 8, none of them a tie. *)
Definition avg_tenths (c6 : Z) : Z :=
  10 * (c6 / 6) + nth (Z.to_nat (c6 mod 6)) [0; 2; 3; 5; 7; 8] 0.

Definition avg_text (c6 : Z) : string :=
  Js.toString (avg_tenths c6 / 10) +:+ "." +:+ Js.toString (avg_tenths c6 mod 10).

(** [c1 > avg*1.5] and [c1 < avg*0.5 && c6 > 0], with the comparisons
    against the printed average cleared of their denominators. *)
Definition trend (c1 c6 : Z) : string :=
  if 3 * avg_tenths c6 <? 20 * c1 then "📈 Surging"
  else if (20 * c1 <? avg_tenths c6) && (0 <? c6) then "📉 Stalling"
  else "➡️ Steady".

Definition velocity_text (c1 c6 : Z) : string :=
  "⚡ <b>Velocity</b>" +:+ nl +:+ nl +:+ "Last hour: <b>" +:+ Js.toString c1 +:+ "</b>" +:+ nl
  +:+ "6h avg: <b>" +:+ avg_text c6 +:+ "/hr</b>" +:+ nl +:+ trend c1 c6.

Section Webhook.

(** [process.env.TELEGRAM_ADMIN_CHAT] *)
Variable ADMIN_CHAT : string.

(** The commands, once the message is known to be no confirmation. *)
Definition dispatch (chatId txt : string) : Prog (Prog unit) :=
  let parts := Js.split " " txt in
  let cmd := Js.toLowerCase (hd EmptyString parts) in
  let arg := Js.trim (Js.join " " (tl parts)) in
  if String.eqb cmd "/ping" then
    query Select1;;
    count ← getState "count"; target ← getState "target"; ca ← getState "ca";
    tg ("✅ <b>All systems alive.</b>" +:+ nl +:+ nl +:+ "Database: online" +:+ nl
        +:+ "Count: <b>" +:+ Js.show count +:+ "/" +:+ Js.show target +:+ "</b>" +:+ nl
        +:+ "CA: <b>" +:+ (if Js.truthy ca then "set" else "not set") +:+ "</b>");;
    done
  else if String.eqb cmd "/count" then
    c ← getState "count"; t ← getState "target";
    tg ("🌊 Count: <b>" +:+ Js.show c +:+ " / " +:+ Js.show t +:+ "</b> ("
        +:+ Js.number_toString (Js.percent (Js.parseInt' c) (Js.parseInt' t)) +:+ "%)");;
    done
  else if String.eqb cmd "/status" then
    s ← getAllState;
    tg (status_text s);;
    done
  else if String.eqb cmd "/setca" then
    if Nat.ltb (Js.length arg) 10 then return_ (tg "Usage: /setCA YourSolanaContractAddress") else
    setState "ca" arg;; addLog "set_ca" arg;;
    tg ("✅ <b>Contract address live.</b>" +:+ nl +:+ nl +:+ "<code>" +:+ arg +:+ "</code>"
        +:+ nl +:+ nl +:+ "Site updates within 30 seconds.");;
    done
  else if String.eqb cmd "/decree" then
    if String.eqb arg "" then return_ (tg "Usage: /decree Your message here") else
    setState "decree" arg;; addLog "decree" arg;;
    tg ("✅ Decree live:" +:+ nl +:+ "<i>" +:+ dq +:+ arg +:+ dq +:+ "</i>");;
    done
  else if String.eqb cmd "/cleardecree" then
    setState "decree" "";;
    tg "✅ Decree cleared. Daily quote restored.";;
    done
  else if String.eqb cmd "/bless" then
    let n := Js.parseInt arg in
    if Js.not_positive n then return_ (tg "Usage: /bless 42") else
    setState "blessed" (Js.toString (default 0 n));;
    tg ("✅ Click <b>#" +:+ Js.toString (default 0 n) +:+ "</b> marked as The Blessed One.");;
    done
  else if String.eqb cmd "/lockdown" then
    let m := if String.eqb arg "" then default_lock_msg else arg in
    setState "locked" "true";; setState "lock_msg" m;; addLog "lockdown" m;;
    tg ("🔒 <b>Site locked.</b>" +:+ nl +:+ nl +:+ "<i>" +:+ dq +:+ m +:+ dq +:+ "</i>"
        +:+ nl +:+ nl +:+ "Use /unlock to reopen.");;
    done
  else if String.eqb cmd "/unlock" then
    setState "locked" "false";; addLog "unlock" "";;
    tg "🔓 Site unlocked. Button active again.";;
    done
  else if String.eqb cmd "/settarget" then
    let n := Js.parseInt arg in
    if Js.not_positive n then return_ (tg settarget_usage) else
    setState "target" (Js.toString (default 0 n));;
    addLog "set_target" (Js.toString (default 0 n));;
    tg (settarget_ok (default 0 n));;
    done
  else if String.eqb cmd "/today" then
    cnt ← query (CountClicksSince 24);
    total ← getState "count"; target ← getState "target";
    tg ("📅 Last 24h: <b>" +:+ cnt +:+ "</b> offerings" +:+ nl
        +:+ "Total: <b>" +:+ Js.show total +:+ "/" +:+ Js.show target +:+ "</b>");;
    done
  else if String.eqb cmd "/velocity" then
    r6 ← query (CountClicksSince 6);
    r1 ← query (CountClicksSince 1);
    tg (velocity_text (default 0 (Js.parseInt r1)) (default 0 (Js.parseInt r6)));;
    done
  else if String.eqb cmd "/tidewarning" then
    let m := if String.eqb arg "" then default_warning else arg in
    setState "tide_warning" m;; addLog "tide_warning" m;;
    tg ("⚠️ Warning set:" +:+ nl +:+ "<i>" +:+ dq +:+ m +:+ dq +:+ "</i>");;
    done
  else if String.eqb cmd "/cleartidewarning" then
    setState "tide_warning" "";;
    tg "✅ Tide warning cleared.";;
    done
  else if String.eqb cmd "/logs" then
    rows ← query SelectLastLogs;
    match rows with
    | [] => return_ (tg "No logs yet.")
    | _ => tg (logs_text rows);; done
    end
  else if String.eqb cmd "/reset" then
    now ← perform DateNow;
    perform (SetPending chatId {| command := "reset"; expiresAt := now + 60000 |});;
    tg reset_warning_text;;
    done
  else if String.eqb cmd "/help" then
    tg help_text;;
    done
  else
    tg ("Unknown: <code>" +:+ cmd +:+ "</code> — send /help");;
    done.

(** The handler after [res.sendStatus(200)]: the HTTP answer never
    depends on the message.  [body] is [req.body]. *)
Definition webhook (body : Js.value) : Prog unit :=
  rest ← try_catch
    (let msg := Js.get "message" body in
     if negb (Js.truthy_value msg) then done else
     chatId ← lift (chat_of msg);
     txt ← lift (text_of msg);
     if negb (String.eqb chatId ADMIN_CHAT) then done else
     addLog "tg_command" (Js.slice0 120 txt);;
     pending ← (if String.eqb txt "CONFIRM" then perform (GetPending chatId)
                else Ret None);
     match pending with
     | Some p =>
         perform (DeletePending chatId);;
         now ← perform DateNow;
         if expiresAt p <? now then return_ (tg expired_text)
         else return_ (handleConfirmed (command p))
     | None => dispatch chatId txt
     end)
    (λ e, tg ("Error: " +:+ e);; done);
  rest.

End Webhook.

(** ** Requests in flight together *)

(** The synchronous stretch of a handler: it runs on until the next
    awaited call. *)
Fixpoint settle {A} (m : Prog A) (w : World) : Prog A * World :=
  match m with
  | Vis op k =>
      if awaited op then (m, w)
      else let '(r, w') := exec_eff op w in settle (k r) w'
  | _ => (m, w)
  end.

(** One turn of a handler that waits on a call: the call is answered and
    the handler runs on to its next [await]. *)
Definition resume {A} (m : Prog A) (w : World) : option (Prog A * World) :=
  match m with
  | Vis op k => let '(r, w') := exec_eff op w in Some (settle (k r) w')
  | _ => None
  end.

(** The handlers in flight take turns in the order the schedule names
    them; a schedule that names a finished handler is no execution. *)
Fixpoint run_schedule {A} (schedule : list nat) (ts : list (Prog A)) (w : World)
  : option (list (Prog A) * World) :=
  match schedule with
  | [] => Some (ts, w)
  | i :: rest =>
      t ← ts !! i;
      '(t', w') ← resume t w;
      run_schedule rest (<[i:=t']> ts) w'
  end.

(** What the handlers in flight have answered, when all of them have. *)
Definition answers {A} (ts : list (Prog A)) : option (list A) :=
  mapM (λ t, match t with Ret a => Some a | _ => None end) ts.

(** The value of a state field as the handlers read it. *)
Definition field (k : string) (w : World) : option string := state (db w) !! k.

(** The number the server reads in [count]. *)
Definition count_of (w : World) : Z := Js.or_num (Js.parseInt' (field "count" w)) 0.
Definition target_of (w : World) : Z := Js.or_num (Js.parseInt' (field "target" w)) 100.

(** ** Vocabulary of the properties *)

(** *** Worlds and what a run keeps *)

(** A world in which no further I/O call fails. *)
Definition calm (w : World) : Prop := faults w = [].

(** The state table right after the first [initDB]. *)
Definition boot : gmap string string := list_to_map defaults.

(** Every field of the default set has a row. *)
Definition bootstrapped (w : World) : Prop := ∀ k, is_Some (boot !! k) → is_Some (field k w).

(** A world with no log, nothing sent, nothing pending and no fault. *)
Definition world_of (st : gmap string string) (cl : list ClickRecord) (now : Z) : World :=
  {| db := {| state := st; clicks := cl; logs := [] |}; clock := now; sent := [];
     pendingConfirm := ∅; faults := [] |}.

(** [w] with the clock moved on by [d] milliseconds. *)
Definition later (d : Z) (w : World) : World :=
  {| db := db w; clock := clock w + d; sent := sent w;
     pendingConfirm := pendingConfirm w; faults := faults w |}.

(** Every run of the handler relates the world it starts in to the world
    it ends in, whatever fails on the way. *)
Definition preserves {A} (R : relation World) (m : Prog A) : Prop :=
  ∀ w, R w (run m w).2.

(** The effect keeps [R], whether the call succeeds or fails. *)
Definition keeps {X} (R : relation World) (op : Eff X) : Prop :=
  ∀ w, R w (exec_eff op w).2.

(** Nothing stored has changed: tables, pending confirmations, clock. *)
Definition same_store : relation World :=
  λ w w', db w' = db w ∧ pendingConfirm w' = pendingConfirm w ∧ clock w' = clock w.

(** The state fields outside [K] have kept their values. *)
Definition same_outside (K : list string) : relation World :=
  λ w w', ∀ k, k ∉ K → field k w' = field k w.

(** The handlers never delete a state row. *)
Definition domain_grows : relation World :=
  λ w w', ∀ k, is_Some (field k w) → is_Some (field k w').

(** What the bootstrap may do to a store: existing fields keep their
    values, a new field holds its default, clicks and logs are untouched. *)
Definition grows_by_defaults : relation World :=
  λ w w',
    (∀ k v, field k w = Some v → field k w' = Some v)
    ∧ (∀ k v, field k w' = Some v → field k w = Some v ∨ boot !! k = Some v)
    ∧ clicks (db w') = clicks (db w)
    ∧ logs (db w') = logs (db w).

Ltac fields :=
  cbn [db clock sent faults pendingConfirm with_db with_sent with_pending use_fault
       state clicks logs set_state set_clicks set_logs field] in *.

(** *** Numerals and texts *)

(** The value of a decimal numeral read left to right from [acc]. *)
Fixpoint horner (d : uint) (acc : Z) : Z :=
  match d with
  | Nil => acc
  | D0 r => horner r (10 * acc)
  | D1 r => horner r (10 * acc + 1)
  | D2 r => horner r (10 * acc + 2)
  | D3 r => horner r (10 * acc + 3)
  | D4 r => horner r (10 * acc + 4)
  | D5 r => horner r (10 * acc + 5)
  | D6 r => horner r (10 * acc + 6)
  | D7 r => horner r (10 * acc + 7)
  | D8 r => horner r (10 * acc + 8)
  | D9 r => horner r (10 * acc + 9)
  end.

Definition digit_char (c : ascii) : Prop := is_Some (Js.digit 10 c).

(** [sub] occurs in [s]. *)
Definition contains (s sub : string) : Prop := ∃ pre post, s = pre +:+ sub +:+ post.

(** The byte [c] occurs in [s]. *)
Fixpoint occurs (c : ascii) (s : string) : bool :=
  match s with
  | EmptyString => false
  | String x r => Ascii.eqb c x || occurs c r
  end.

(** A byte of exactly one of the three supplements: H of Halfway, q of
    quarters, and the first byte of the warning sign. *)
Definition mark (c : ascii) : Prop :=
  c = "H"%char ∨ c = "q"%char ∨ c = ascii_of_nat 226.

(** The three kinds of click notification, told apart by their heading. *)
Definition is_progress (m : string) : bool := String.prefix "🌊 <b>Tide Update</b>" m.
Definition is_blessed (m : string) : bool := String.prefix "🦞 <b>The Blessed One has arrived.</b>" m.
Definition is_launched (m : string) : bool := String.prefix "🎉 <b>THE TIDE POOL IS UNLEASHED</b>" m.

(** [round(100*n/t)] in exact arithmetic, ties upwards, for a positive [t]. *)
Definition nearest_percent (n t : Z) : Z := (200 * n + t) / (2 * t).

(** Reduces the comparisons of two literal strings. *)
Ltac eqb_literals :=
  repeat match goal with
    | |- context [String.eqb ?a ?b] =>
        let r := eval vm_compute in (String.eqb a b) in
        lazymatch r with
        | true => change (String.eqb a b) with true
        | false => change (String.eqb a b) with false
        end
    end; cbv iota.

(** Takes the branch that a comparison of two literal strings selects. *)
Ltac pick_branch :=
  repeat match goal with
    | |- context [if String.eqb ?a ?b then ?x else ?y] =>
        let r := eval vm_compute in (String.eqb a b) in
        lazymatch r with
        | true => change (if String.eqb a b then x else y) with x
        | false => change (if String.eqb a b then x else y) with y
        end
    end.

(** *** The click gate *)

(** The click records of an address that anti-spam still counts. *)
Definition clicks_of (who : string) (w : World) : list ClickRecord :=
  filter (λ c, String.eqb (ip c) who && recent (clock w) 24 c = true) (clicks (db w)).

(** The address has a click record within the trailing 24 hours. *)
Definition has_recent_click (who : string) (w : World) : Prop :=
  ∃ c, c ∈ clicks (db w) ∧ ip c = who ∧ clock w - hours 24 < clicked_at c.

(** The click records of the trailing [h] hours. *)
Definition clicks_within (h : Z) (w : World) : list ClickRecord :=
  filter (λ c, recent (clock w) h c = true) (clicks (db w)).

Definition already_clicked : Response :=
  {| status := 429; body := ErrorBody "already_clicked" |}.

Definition locked_out (w : World) : Response :=
  {| status := 423; body := LockedBody (field "lock_msg" w) |}.

Definition accepted (who : string) (w : World) : Response :=
  {| status := 200;
     body := ClickBody (count_of w + 1) (target_of w) (target_of w <=? count_of w + 1) |}.

Definition click_ok (n t : Z) (l : bool) : Response :=
  {| status := 200; body := ClickBody n t l |}.

(** The notifications of an accepted click that brought the counter to
    [n], in the order they are sent. *)
Definition notifications (n t : Z) (blessed launched : option string) : list string :=
  ((if Z.rem n 10 =? 0 then [progress_text n t] else []) ++
   (if blessed_is blessed n then [blessed_text n] else []) ++
   (if (t <=? n) && negb (is_true launched) then [launched_text n] else []))%list.

Definition click_log (who : string) (n : Z) : string :=
  "IP:" +:+ who +:+ " Count:" +:+ Js.toString n.

(** The world an accepted click leaves behind when no other request is in
    flight. *)
Definition after_click (who : string) (w : World) : World :=
  let n := count_of w + 1 in
  let t := target_of w in
  {| db := {| state := (if (t <=? n) && negb (is_true (field "launched" w))
                        then <["launched":="true"]> (<["count":=Js.toString n]> (state (db w)))
                        else <["count":=Js.toString n]> (state (db w)));
              clicks := (clicks (db w) ++ [{| ip := who; clicked_at := clock w |}])%list;
              logs := (logs (db w) ++ [{| event := "click"; detail := click_log who n;
                                         created_at := clock w |}])%list |};
     clock := clock w;
     sent := (sent w ++ notifications n t (field "blessed" w) (field "launched" w))%list;
     pendingConfirm := pendingConfirm w;
     faults := faults w |}.

(** The launch notifications among the texts sent. *)
Definition launches (w : World) : list string :=
  filter (λ m, is_launched m = true) (sent w).

(** The clicks of [ips] one after the other, each run to its end before
    the next starts; [None] as soon as one is not accepted. *)
Fixpoint serial (ips : list string) (w : World) : option World :=
  match ips with
  | [] => Some w
  | who :: rest =>
      match run (post_click false who) w with
      | (inl r, w') => if status r =? 200 then serial rest w' else None
      | _ => None
      end
  end.

(** What the handlers in flight answer under a schedule that runs all of
    them to their end, and the world they leave. *)
Definition outcome {A} (schedule : list nat) (ts : list (Prog A)) (w : World)
  : option (list A * World) :=
  '(ts', w') ← run_schedule schedule ts w;
  rs ← answers ts';
  Some (rs, w').

(** *** The admin channel *)

(** The handler's [msg]. *)
Definition message_of (upd : Js.value) : Js.value := Js.get "message" upd.

(** The request carries a message that the handler reads without an
    error: its chat identity is [chat] and its trimmed text is [txt]. *)
Definition carries (upd : Js.value) (chat txt : string) : Prop :=
  Js.truthy_value (message_of upd) = true
  ∧ chat_of (message_of upd) = inl chat
  ∧ text_of (message_of upd) = inl txt.

(** The request carries a message that the handler cannot read: taking
    its chat identity or its text throws a TypeError of message [e]. *)
Definition unreadable (upd : Js.value) (e : string) : Prop :=
  Js.truthy_value (message_of upd) = true
  ∧ (chat_of (message_of upd) = inr e
     ∨ ((∃ chat, chat_of (message_of upd) = inl chat)
        ∧ text_of (message_of upd) = inr e)).

(** The handler's [cmd] and [arg]. *)
Definition command_of (txt : string) : string :=
  Js.toLowerCase (hd EmptyString (Js.split " " txt)).
Definition argument_of (txt : string) : string :=
  Js.trim (Js.join " " (tl (Js.split " " txt))).

(** The world once the operator's message is in the log. *)
Definition logged (txt : string) (w : World) : World :=
  with_db (set_logs (λ l, (l ++ [{| event := "tg_command"; detail := Js.slice0 120 txt;
                                   created_at := clock w |}])%list) (db w)) w.

Definition reset_keys : list string :=
  ["count"; "ca"; "blessed"; "decree"; "tide_warning"; "launched"].

(** The entry that /reset stores. *)
Definition reset_pending (w : World) : Pending :=
  {| command := "reset"; expiresAt := clock w + 60000 |}.

(** The world a confirmed reset leaves behind. *)
Definition after_reset (w : World) : World :=
  {| db := {| state := update_rows ["launched"] "false"
                         (update_rows ["ca"; "blessed"; "decree"; "tide_warning"] ""
                            (update_rows ["count"] "0" (state (db w))));
              clicks := [];
              logs := (logs (db w) ++ [{| event := "reset"; detail := "Full reset";
                                         created_at := clock w |}])%list |};
     clock := clock w;
     sent := (sent w ++ [reset_done_text])%list;
     pendingConfirm := pendingConfirm w;
     faults := faults w |}.

(** Membership of a literal key in a literal list of keys. *)
Ltac key_in :=
  rewrite ?elem_of_cons, ?elem_of_nil; repeat first [left; reflexivity | right].
Ltac key_out :=
  rewrite ?elem_of_cons, ?elem_of_nil; intuition discriminate.

(** *** Worlds, messages and schedules of the examples *)

(** A fresh pool: count 0 of 100. *)
Definition w_fresh : World := world_of boot [] 9000.

(** Click 59 of 100 coming, with click 60 blessed. *)
Definition w_59 : World := world_of (<["count":="59"]> (<["blessed":="60"]> boot)) [] 9000.

(** One click short of the target. *)
Definition w_99 : World := world_of (<["count":="99"]> boot) [] 9000.

(** 229 clicks towards a target of 400. *)
Definition w_229 : World := world_of (<["count":="229"]> (<["target":="400"]> boot)) [] 9000.

(** Locked, and the caller clicked a second ago. *)
Definition w_locked : World :=
  world_of (<["locked":="true"]> boot) [{| ip := "203.0.113.7"; clicked_at := 1000 |}] 2000.

(** A day of activity: 57 clicks, an address set, two click records. *)
Definition w_busy : World :=
  {| db := {| state := <["count":="57"]> (<["ca":="So11111111111111111111111111111111111111112"]>
                       (<["blessed":="60"]> (<["decree":="Feed the pool"]> boot)));
              clicks := [{| ip := "203.0.113.7"; clicked_at := 5000 |};
                         {| ip := "198.51.100.2"; clicked_at := 7000 |}];
              logs := [] |};
     clock := 9000; sent := []; pendingConfirm := ∅; faults := [] |}.

(** Not launched, the last click four hours old. *)
Definition w_quiet : World :=
  world_of (<["count":="57"]> boot) [{| ip := "203.0.113.7"; clicked_at := hours 1 |}] (hours 5).

(** Not launched, a click two hours old. *)
Definition w_active : World :=
  world_of (<["count":="57"]> boot) [{| ip := "203.0.113.7"; clicked_at := hours 3 |}] (hours 5).

(** Launched long ago; the store is down for the next call. *)
Definition w_launched_down : World :=
  {| db := {| state := <["launched":="true"]> (<["count":="120"]> boot); clicks := []; logs := [] |};
     clock := hours 30; sent := []; pendingConfirm := ∅; faults := [Some "connection refused"] |}.

(** A store that an operator has already worked on, with one row missing. *)
Definition w_partial : World :=
  world_of (delete "blessed" (<["target":="150"]> (<["count":="57"]> boot))) [] 9000.

(** The same store, with the fourth call failing. *)
Definition w_partial_down : World :=
  {| db := db w_partial; clock := 9000; sent := []; pendingConfirm := ∅;
     faults := [None; None; None; Some "terminating connection"] |}.

(** An update as Telegram posts it: the chat identity is a number. *)
Definition telegram (chat : float) (txt : Js.value) : Js.value :=
  Js.Obj [("update_id", Js.Num 1001);
          ("message", Js.Obj [("message_id", Js.Num 7);
                              ("chat", Js.Obj [("id", Js.Num chat); ("type", Js.Str "private")]);
                              ("text", txt)])].



(** A message from the chat 42, the operator of the examples. *)
Definition from_operator (txt : string) : Js.value := telegram 42 (Js.Str txt).

(** The two messages of a reset. *)
Definition m_reset : Js.value := from_operator "/reset".
Definition m_confirm : Js.value := from_operator "CONFIRM".

Definition two_clicks : list (Prog Response) :=
  [post_click false "203.0.113.7"; post_click false "198.51.100.2"].

(** Two requests: each reads [count] and [target] before either writes. *)
Definition both_read_first : list nat :=
  [0; 0; 0; 0; 1; 1; 1; 1; 0; 0; 0; 0; 1; 1; 1; 1]%nat.

(** Two requests: the first has read [launched] when the second runs from
    start to end; then the first goes on. *)
Definition overtaken_at_launch : list nat :=
  (replicate 10 0%nat ++ replicate 11 1%nat ++ replicate 2 0%nat)%list.

(** * Properties *)

(** ** The primitives on small inputs *)

Example parseInt_150 : Js.parseInt "150" = Some 150. Proof. reflexivity. Qed.
Example parseInt_abc : Js.parseInt "abc" = None. Proof. reflexivity. Qed.
Example parseInt_prefix : Js.parseInt "  -12px" = Some (-12). Proof. reflexivity. Qed.
Example parseInt_hex : Js.parseInt "0x1F" = Some 31. Proof. reflexivity. Qed.
Example parseInt_rounds : Js.parseInt "9007199254740993" = Some 9007199254740992.
Proof. vm_compute. reflexivity. Qed.
Example toString_minus_42 : Js.toString (-42) = "-42". Proof. reflexivity. Qed.
Example toString_2_60 : Js.toString (2 ^ 60) = "1152921504606847000".
Proof. vm_compute. reflexivity. Qed.
Example toString_10_21 : Js.toString (10 ^ 21) = "1e+21". Proof. vm_compute. reflexivity. Qed.
Example toString_big : Js.toString (123456789012345678901234567890) = "1.2345678901234568e+29".
Proof. vm_compute. reflexivity. Qed.
Example toString_huge : Js.toString (10 ^ 400) = "Infinity". Proof. vm_compute. reflexivity. Qed.
Example split_ex : Js.split " " "/decree a  b" = ["/decree"; "a"; ""; "b"]. Proof. reflexivity. Qed.
Example trim_ex : Js.trim "  CONFIRM " = "CONFIRM". Proof. reflexivity. Qed.
Example trim_nbsp :
  Js.trim (String (ascii_of_nat 194) (String (ascii_of_nat 160) "150")) = "150".
Proof. reflexivity. Qed.
Example percent_230_400 : Js.percent (Some 230) (Some 400) = Js.Int 57. Proof. vm_compute. reflexivity. Qed.
Example percent_50_100 : Js.percent (Some 50) (Some 100) = Js.Int 50. Proof. vm_compute. reflexivity. Qed.
Example percent_by_zero : Js.percent (Some 5) (Some 0) = Js.Infinity false. Proof. vm_compute. reflexivity. Qed.
Example lower_command : Js.toLowerCase "/SetTarget" = "/settarget". Proof. reflexivity. Qed.
Example average_text : avg_text 7 = "1.2". Proof. reflexivity. Qed.
Example time_text : time_of_day 3723000 = "01:02:03". Proof. reflexivity. Qed.
Example String_number : Js.String_ (Js.Num 42) = inl "42". Proof. vm_compute. reflexivity. Qed.
Example String_array : Js.String_ (Js.Arr [Js.Num 42]) = inl "42". Proof. vm_compute. reflexivity. Qed.
Example String_fraction : Js.String_ (Js.Num 0.5) = inl "0.5". Proof. vm_compute. reflexivity. Qed.
Example String_object : Js.String_ (Js.Obj [("id", Js.Num 42)]) = inl "[object Object]".
Proof. reflexivity. Qed.
Example String_throws : Js.String_ (Js.Obj [("toString", Js.Null)]) = inr Js.no_primitive.
Proof. reflexivity. Qed.

(** ** Printing and reading numbers *)

Module JsFacts.

Lemma horner_acc d : ∀ acc : positive, horner d (Z.pos acc) = Z.pos (Pos.of_uint_acc d acc).
Proof.
  induction d; intros acc; cbn [horner Pos.of_uint_acc]; try reflexivity;
    rewrite <- IHd; f_equal; lia.
Qed.

Lemma horner_of_uint d : horner d 0 = Z.of_N (Pos.of_uint d).
Proof.
  induction d; cbn [horner Pos.of_uint]; try reflexivity; try exact IHd;
    apply (horner_acc d 1) || apply (horner_acc d 2) || apply (horner_acc d 3)
    || apply (horner_acc d 4) || apply (horner_acc d 5) || apply (horner_acc d 6)
    || apply (horner_acc d 7) || apply (horner_acc d 8) || apply (horner_acc d 9).
Qed.

Lemma digits_numeral d : ∀ acc,
  Js.digits 10 (NilEmpty.string_of_uint d) (Some acc) = Some (horner d acc).
Proof.
  induction d; intros acc; cbn [NilEmpty.string_of_uint Js.digits horner];
    try reflexivity;
    match goal with
    | |- context [Js.digit 10 ?c] =>
        let v := eval vm_compute in (Js.digit 10 c) in change (Js.digit 10 c) with v
    end;
    cbn [default id]; rewrite IHd; do 2 f_equal; lia.
Qed.

Lemma digits_numeral_start d :
  d ≠ Nil → Js.digits 10 (NilEmpty.string_of_uint d) None = Some (horner d 0).
Proof.
  destruct d; intros Hd; try congruence;
    cbn [NilEmpty.string_of_uint Js.digits];
    match goal with
    | |- context [Js.digit 10 ?c] =>
        let v := eval vm_compute in (Js.digit 10 c) in change (Js.digit 10 c) with v
    end;
    cbn [default id]; rewrite digits_numeral; do 2 f_equal.
Qed.

(** A numeral starts with a digit and goes on with a digit or ends. *)
Lemma numeral_shape d :
  match NilEmpty.string_of_uint d with
  | EmptyString => d = Nil
  | String c EmptyString => digit_char c
  | String c (String c' _) => digit_char c ∧ digit_char c'
  end.
Proof.
  destruct d as [|d|d|d|d|d|d|d|d|d|d]; simpl; try reflexivity;
    destruct d; simpl; repeat split; eexists; reflexivity.
Qed.

(** The characters of a text, put together again, are the text. *)
Lemma chars_aux_cat s : (Js.chars_aux s).1 +:+ Js.cat (Js.chars_aux s).2 = s.
Proof.
  induction s as [|c s IH]; [reflexivity|].
  cbn [Js.chars_aux]. destruct (Js.chars_aux s) as [p d]. cbn [fst snd] in IH.
  destruct (Js.is_cont c); cbn [fst snd Js.cat foldr].
  - change (String c (p +:+ Js.cat d) = String c s). rewrite IH. reflexivity.
  - change (String c (p +:+ Js.cat d) = String c s). rewrite IH. reflexivity.
Qed.

(** A character that starts with an ASCII byte other than white space is
    no white space. *)
Lemma is_space_plain c p :
  Js.code c < 128 → Js.is_space (String c EmptyString) = false →
  Js.is_space (String c p) = false.
Proof.
  intros Hc Hs.
  assert (H : ∀ k, 128 ≤ k → (Js.code c =? k) = false) by (intros; apply Z.eqb_neq; lia).
  destruct p as [|c2 [|c3 [|c4 p]]]; cbn [Js.is_space];
    [exact Hs | | | reflexivity]; rewrite ?H by lia; reflexivity.
Qed.

Lemma trimStart_plain c s :
  Js.code c < 128 → Js.is_space (String c EmptyString) = false →
  Js.trimStart (String c s) = String c s.
Proof.
  intros Hc Hs. unfold Js.trimStart, Js.chars. cbn [Js.chars_aux].
  pose proof (chars_aux_cat s) as Hcat.
  destruct (Js.chars_aux s) as [p d]. cbn [fst snd] in Hcat.
  assert (Hk : Js.is_cont c = false).
  { unfold Js.is_cont. rewrite (proj2 (Z.leb_gt 128 (Js.code c))) by lia. reflexivity. }
  rewrite Hk. cbn [Js.drop_space]. rewrite is_space_plain by assumption.
  cbn [Js.cat foldr]. change (String c (p +:+ Js.cat d) = String c s).
  rewrite Hcat. reflexivity.
Qed.

Lemma digit_code c : digit_char c → 48 ≤ Js.code c ≤ 57.
Proof.
  intros [v Hv]. revert Hv.
  destruct c as [[] [] [] [] [] [] [] []]; vm_compute; intros Hv; split; congruence.
Qed.

Lemma digit_is_plain c : digit_char c → Js.is_space (String c EmptyString) = false.
Proof.
  intros Hc. apply digit_code in Hc. cbn [Js.is_space].
  rewrite (proj2 (Z.leb_gt (Js.code c) 13)), (proj2 (Z.eqb_neq (Js.code c) 32)) by lia.
  rewrite andb_false_r. reflexivity.
Qed.

Lemma spelled_digit c s :
  digit_char c → Js.spelled (String c s) = Js.unsigned (String c s).
Proof.
  intros Hc. unfold Js.spelled.
  rewrite trimStart_plain; [|pose proof (digit_code c Hc); lia | apply digit_is_plain, Hc].
  destruct Hc as [v Hv].
  destruct c as [[] [] [] [] [] [] [] []]; try reflexivity;
    vm_compute in Hv; congruence.
Qed.

Lemma spelled_minus s : Js.spelled (String "-" s) = Z.opp <$> Js.unsigned s.
Proof.
  unfold Js.spelled. rewrite trimStart_plain; [reflexivity | vm_compute; reflexivity | reflexivity].
Qed.

Lemma unsigned_numeral d :
  d ≠ Nil → Js.unsigned (NilEmpty.string_of_uint d) = Some (horner d 0).
Proof.
  intros Hd. unfold Js.unsigned.
  pose proof (numeral_shape d) as Hs. pose proof (digits_numeral_start d Hd) as Hp.
  destruct (NilEmpty.string_of_uint d) as [|c s] eqn:E; [congruence|].
  assert (E2 : (match String c s with
                | String "0" (String "x" r) => (16, r)
                | String "0" (String "X" r) => (16, r)
                | _ => (10, String c s)
                end) = (10, String c s)).
  { destruct s as [|c' s']; [destruct c as [[] [] [] [] [] [] [] []]; reflexivity|].
    destruct Hs as [_ [v Hv]].
    assert (c' ≠ "x"%char ∧ c' ≠ "X"%char) as [Hx HX]
      by (split; intros ->; vm_compute in Hv; congruence).
    destruct c as [[] [] [] [] [] [] [] []]; try reflexivity;
      destruct c' as [[] [] [] [] [] [] [] []]; try reflexivity; congruence. }
  rewrite E2. exact Hp.
Qed.

Lemma decimal_pos p :
  Js.decimal (Z.pos p) = NilEmpty.string_of_uint (Pos.to_uint p).
Proof.
  unfold Js.decimal, Z.to_int, NilZero.string_of_int, NilZero.string_of_uint.
  pose proof (Unsigned.to_uint_nonnil p). destruct (Pos.to_uint p); congruence.
Qed.

Lemma decimal_neg p :
  Js.decimal (Z.neg p) = String "-" (NilEmpty.string_of_uint (Pos.to_uint p)).
Proof.
  unfold Js.decimal, Z.to_int, NilZero.string_of_int, NilZero.string_of_uint.
  pose proof (Unsigned.to_uint_nonnil p). destruct (Pos.to_uint p); congruence.
Qed.

(** A decimal numeral spells its integer. *)
Lemma spelled_decimal z : Js.spelled (Js.decimal z) = Some z.
Proof.
  destruct z as [|p|p]; [reflexivity| |].
  - rewrite decimal_pos.
    pose proof (numeral_shape (Pos.to_uint p)) as Hs.
    pose proof (unsigned_numeral _ (Unsigned.to_uint_nonnil p)) as Hu.
    destruct (NilEmpty.string_of_uint (Pos.to_uint p)) as [|c s] eqn:E.
    { exfalso. exact (Unsigned.to_uint_nonnil p Hs). }
    rewrite spelled_digit by (destruct s; tauto).
    rewrite Hu, horner_of_uint, Unsigned.of_to. reflexivity.
  - rewrite decimal_neg, spelled_minus.
    rewrite unsigned_numeral by apply Unsigned.to_uint_nonnil.
    rewrite horner_of_uint, Unsigned.of_to. reflexivity.
Qed.

Lemma parseInt_decimal z : Js.parseInt (Js.decimal z) = Some (Js.round64 z).
Proof. unfold Js.parseInt. rewrite spelled_decimal. reflexivity. Qed.

(** Below 2^53 an integer is a binary64 value and prints in full. *)
Lemma round64_safe z : Z.abs z < 2 ^ 53 → Js.round64 z = z.
Proof. intros H. unfold Js.round64. rewrite (proj2 (Z.ltb_lt _ _) H). reflexivity. Qed.

Lemma toString_safe z : Z.abs z < 2 ^ 53 → Js.toString z = Js.decimal z.
Proof. intros H. unfold Js.toString. rewrite (proj2 (Z.ltb_lt _ _) H). reflexivity. Qed.

(** Reading back what [String(n)] printed gives [n], below 2^53. *)
Lemma parseInt_toString z : Z.abs z < 2 ^ 53 → Js.parseInt (Js.toString z) = Some z.
Proof.
  intros H. rewrite toString_safe, parseInt_decimal, round64_safe by assumption. reflexivity.
Qed.

(** Rounding to binary64 never reaches zero from another integer. *)
Lemma round64_zero z : Js.round64 z = 0 ↔ z = 0.
Proof.
  split; [|intros ->; reflexivity].
  unfold Js.round64. destruct (Z.ltb_spec (Z.abs z) (2 ^ 53)) as [|Hbig]; [tauto|].
  cbv zeta. set (a := Z.abs z) in *. set (e := Z.log2 a - 52).
  assert (Ha : 0 < a) by lia.
  assert (He : 1 ≤ e).
  { pose proof (Z.log2_le_mono _ _ Hbig) as H. rewrite Z.log2_pow2 in H by lia. lia. }
  assert (Hq : 2 ^ 52 ≤ a / 2 ^ e).
  { apply Z.div_le_lower_bound; [lia|].
    rewrite <- Z.pow_add_r by lia. replace (e + 52) with (Z.log2 a) by lia.
    apply Z.log2_spec, Ha. }
  assert (Hp : 0 < 2 ^ e) by lia.
  set (q' := if 2 * (a mod 2 ^ e) <? 2 ^ e then a / 2 ^ e
             else if 2 ^ e <? 2 * (a mod 2 ^ e) then a / 2 ^ e + 1
             else if Z.even (a / 2 ^ e) then a / 2 ^ e else a / 2 ^ e + 1).
  assert (Hq' : 2 ^ 52 ≤ q').
  { unfold q'. repeat destruct (_ <? _); try destruct (Z.even _); lia. }
  intros H. apply Z.mul_eq_0 in H as [H|H]; [destruct z; discriminate H || reflexivity|].
  assert (0 < q' * 2 ^ e) by nia. lia.
Qed.

End JsFacts.

(** ** Running a handler *)

Section RunFacts.

Context {A B : Type}.

Lemma run_bind (m : Prog A) (f : A → Prog B) w :
  run (m ≫= f) w =
  match run m w with
  | (inl a, w') => run (f a) w'
  | (inr e, w') => (inr e, w')
  end.
Proof.
  revert w. induction m as [a|e|X op k IH]; intros w; try reflexivity.
  change (run (Vis op k ≫= f) w)
    with (let '(r, w') := exec_eff op w in run (k r ≫= f) w').
  cbn [run]. destruct (exec_eff op w) as [r w']. apply IH.
Qed.

Lemma run_try_catch (m : Prog A) (h : string → Prog A) w :
  run (try_catch m h) w =
  match run m w with
  | (inl a, w') => (inl a, w')
  | (inr e, w') => run (h e) w'
  end.
Proof.
  revert w. induction m as [a|e|X op k IH]; intros w; cbn [try_catch run].
  - reflexivity.
  - destruct (run (h e) w); reflexivity.
  - destruct (exec_eff op w) as [r w']. apply IH.
Qed.

End RunFacts.

Lemma use_fault_calm w : calm w → use_fault w = w.
Proof. destruct w; unfold calm, use_fault; simpl; intros ->; reflexivity. Qed.

Lemma next_fault_calm w : calm w → next_fault w = None.
Proof. unfold calm, next_fault; intros ->; reflexivity. Qed.

Lemma run_query_any {X} (q : Sql X) w :
  run (query q) w =
  match next_fault w with
  | Some e => (inr e, use_fault w)
  | None => (inl (exec_sql q (clock w) (db w)).1,
             with_db (exec_sql q (clock w) (db w)).2 (use_fault w))
  end.
Proof.
  unfold query, perform. cbn [run exec_eff].
  destruct (next_fault w); [reflexivity|].
  destruct (exec_sql q (clock w) (db w)); reflexivity.
Qed.

Lemma run_query {X} (q : Sql X) w :
  calm w →
  run (query q) w =
  (inl (exec_sql q (clock w) (db w)).1, with_db (exec_sql q (clock w) (db w)).2 w).
Proof.
  intros Hw. rewrite run_query_any, next_fault_calm, use_fault_calm by assumption.
  reflexivity.
Qed.

Lemma run_tg_any text w :
  run (tg text) w =
  match next_fault w with
  | Some e => (inl tt, use_fault w)
  | None => (inl tt, with_sent (sent w ++ [text])%list (use_fault w))
  end.
Proof.
  unfold tg, perform. cbn [try_catch run exec_eff].
  destruct (next_fault w); reflexivity.
Qed.

Lemma run_tg text w :
  calm w → run (tg text) w = (inl tt, with_sent (sent w ++ [text])%list w).
Proof.
  intros Hw. rewrite run_tg_any, next_fault_calm, use_fault_calm by assumption.
  reflexivity.
Qed.

Lemma with_db_same w : with_db (db w) w = w.
Proof. destruct w; reflexivity. Qed.

Lemma run_getState k w :
  calm w → run (getState k) w = (inl (field k w), w).
Proof.
  intros Hw. unfold getState. rewrite run_bind, run_query by assumption.
  cbn [exec_sql fst snd run]. rewrite with_db_same. unfold field.
  destruct (state (db w) !! k); reflexivity.
Qed.

Lemma run_setState k v w :
  calm w →
  run (setState k v) w = (inl tt, with_db (set_state (insert k v) (db w)) w).
Proof. intros Hw. unfold setState. rewrite run_query by assumption. reflexivity. Qed.

Lemma run_addLog e d w :
  calm w →
  run (addLog e d) w =
  (inl tt, with_db (set_logs (λ l, (l ++ [{| event := e; detail := d; created_at := clock w |}])%list)
                             (db w)) w).
Proof. intros Hw. unfold addLog. rewrite run_query by assumption. reflexivity. Qed.

Lemma run_hasIPClicked who w :
  calm w → run (hasIPClicked who) w = (inl (Nat.ltb 0 (length (clicks_of who w))), w).
Proof.
  intros Hw. unfold hasIPClicked. rewrite run_bind, run_query by assumption.
  cbn [exec_sql fst snd run]. rewrite with_db_same. reflexivity.
Qed.

Lemma run_recordIPClick who w :
  calm w →
  run (recordIPClick who) w =
  (inl tt, with_db (set_clicks (λ l, (l ++ [{| ip := who; clicked_at := clock w |}])%list)
                               (db w)) w).
Proof. intros Hw. unfold recordIPClick. rewrite run_query by assumption. reflexivity. Qed.

Lemma calm_with_db d w : calm w → calm (with_db d w).
Proof. exact id. Qed.

Lemma calm_with_sent l w : calm w → calm (with_sent l w).
Proof. exact id. Qed.

Lemma calm_with_pending p w : calm w → calm (with_pending p w).
Proof. exact id. Qed.

Create HintDb calm.
#[export] Hint Resolve calm_with_db calm_with_sent calm_with_pending : calm.

(** One step of a calm run: split the next bind and run its head. *)
Ltac calm_step :=
  rewrite run_bind;
  first
    [ rewrite run_getState by auto with calm
    | rewrite run_setState by auto with calm
    | rewrite run_addLog by auto with calm
    | rewrite run_hasIPClicked by auto with calm
    | rewrite run_recordIPClick by auto with calm
    | rewrite run_tg by auto with calm
    | rewrite run_query by auto with calm ];
  cbv beta iota.

(** ** The click gate *)

Lemma clicks_of_spec who w c :
  c ∈ clicks_of who w ↔ c ∈ clicks (db w) ∧ ip c = who ∧ clock w - hours 24 < clicked_at c.
Proof.
  unfold clicks_of. rewrite list_elem_of_filter, andb_true_iff, String.eqb_eq.
  unfold recent. rewrite Z.ltb_lt. tauto.
Qed.

Lemma has_recent_click_iff who w :
  has_recent_click who w ↔ Nat.ltb 0 (length (clicks_of who w)) = true.
Proof.
  unfold has_recent_click. split.
  - intros (c & Hc). apply clicks_of_spec in Hc.
    destruct (clicks_of who w); [inversion Hc | reflexivity].
  - destruct (clicks_of who w) as [|c l] eqn:E; [discriminate|]. intros _.
    exists c. apply clicks_of_spec. rewrite E. left.
Qed.

Lemma click_handler_already who w :
  calm w → has_recent_click who w →
  run (click_handler who) w = (inl already_clicked, w).
Proof.
  intros Hw Hc. apply has_recent_click_iff in Hc.
  unfold click_handler. rewrite run_try_catch. calm_step. rewrite Hc. reflexivity.
Qed.

Lemma click_handler_locked who w :
  calm w → ¬ has_recent_click who w → field "locked" w = Some "true" →
  run (click_handler who) w = (inl (locked_out w), w).
Proof.
  intros Hw Hc Hl. rewrite has_recent_click_iff in Hc. apply not_true_is_false in Hc.
  unfold click_handler. rewrite run_try_catch. calm_step. rewrite Hc.
  calm_step. rewrite Hl. cbn [is_true String.eqb Ascii.eqb Bool.eqb].
  calm_step. reflexivity.
Qed.

Lemma with_sent_same w : with_sent (sent w) w = w.
Proof. destruct w; reflexivity. Qed.

Lemma run_tg_if (b : bool) text w :
  calm w →
  run (if b then tg text else Ret tt) w =
  (inl tt, with_sent (sent w ++ (if b then [text] else []))%list w).
Proof.
  intros Hw. destruct b; [apply run_tg, Hw|].
  rewrite app_nil_r, with_sent_same. reflexivity.
Qed.

(** The launch block of the click handler. *)
Lemma run_launch n t w :
  calm w →
  run (if t <=? n then
         wasLaunched ← getState "launched";
         if is_true wasLaunched then Ret tt
         else setState "launched" "true";; tg (launched_text n)
       else Ret tt) w =
  (inl tt,
   if (t <=? n) && negb (is_true (field "launched" w))
   then with_sent (sent w ++ [launched_text n])%list
          (with_db (set_state (insert "launched" "true") (db w)) w)
   else w).
Proof.
  intros Hw. destruct (t <=? n); [|reflexivity].
  calm_step. destruct (is_true (field "launched" w)); [reflexivity|].
  calm_step. rewrite run_tg by auto with calm. reflexivity.
Qed.

(** An accepted click, alone in flight: its answer and the world it
    leaves. *)
Lemma click_handler_accepted who w :
  calm w → ¬ has_recent_click who w → is_true (field "locked" w) = false →
  run (click_handler who) w = (inl (accepted who w), after_click who w).
Proof.
  intros Hw Hc Hl. rewrite has_recent_click_iff in Hc. apply not_true_is_false in Hc.
  unfold click_handler. rewrite run_try_catch. calm_step. rewrite Hc.
  calm_step. rewrite Hl.
  do 5 calm_step.
  fold (count_of w) (target_of w). unfold after_click, notifications, accepted.
  set (n := count_of w + 1). set (t := target_of w).
  rewrite run_bind, run_tg_if by auto with calm. calm_step.
  rewrite run_bind, run_tg_if by auto with calm. cbv beta iota.
  rewrite run_bind, run_launch by auto with calm. cbv beta iota. cbn [run].
  unfold field. fields. rewrite !lookup_insert_ne by done.
  f_equal.
  destruct ((t <=? n) && negb (is_true (state (db w) !! "launched")));
    destruct w as [[st cl lg] ck sn pc fl]; fields;
    rewrite <- ?app_assoc, ?app_nil_r; reflexivity.
Qed.

(** ** What a run keeps, faults included *)

Section Preserves.

Context (R : relation World) `{!PreOrder R}.

Lemma preserves_ret {A} (a : A) : preserves R (Ret a).
Proof. intros w. reflexivity. Qed.

Lemma preserves_throw {A} e : preserves R (@Throw A e).
Proof. intros w. reflexivity. Qed.

Lemma preserves_vis {A X} (op : Eff X) (k : X + string → Prog A) :
  keeps R op → (∀ r, preserves R (k r)) → preserves R (Vis op k).
Proof.
  intros Hop Hk w. cbn [run]. specialize (Hop w).
  destruct (exec_eff op w) as [r w']. etransitivity; [exact Hop | apply Hk].
Qed.

Lemma preserves_perform {X} (op : Eff X) : keeps R op → preserves R (perform op).
Proof.
  intros Hop. apply preserves_vis; [exact Hop|].
  intros [x|e]; [apply preserves_ret | apply preserves_throw].
Qed.

Lemma preserves_bind {A B} (m : Prog A) (f : A → Prog B) :
  preserves R m → (∀ a, preserves R (f a)) → preserves R (m ≫= f).
Proof.
  intros Hm Hf w. rewrite run_bind. specialize (Hm w).
  destruct (run m w) as [[a|e] w']; [|exact Hm].
  etransitivity; [exact Hm | apply Hf].
Qed.

Lemma preserves_try_catch {A} (m : Prog A) h :
  preserves R m → (∀ e, preserves R (h e)) → preserves R (try_catch m h).
Proof.
  intros Hm Hh w. rewrite run_try_catch. specialize (Hm w).
  destruct (run m w) as [[a|e] w']; [exact Hm|].
  etransitivity; [exact Hm | apply Hh].
Qed.

Lemma preserves_if {A} (b : bool) (m1 m2 : Prog A) :
  preserves R m1 → preserves R m2 → preserves R (if b then m1 else m2).
Proof. destruct b; tauto. Qed.

Lemma preserves_tg text : keeps R (Fetch text) → preserves R (tg text).
Proof.
  intros H. apply preserves_try_catch; [apply preserves_perform, H|].
  intros _. apply preserves_ret.
Qed.

End Preserves.

#[global] Instance same_store_preorder : PreOrder same_store.
Proof.
  split.
  - intros w. unfold same_store. tauto.
  - intros w1 w2 w3 (H1 & H2 & H3) (H4 & H5 & H6). unfold same_store. repeat split; congruence.
Qed.

#[global] Instance same_outside_preorder K : PreOrder (same_outside K).
Proof.
  split.
  - intros w k _. reflexivity.
  - intros w1 w2 w3 H1 H2 k Hk. rewrite H2, H1 by assumption. reflexivity.
Qed.

(** A statement that leaves the tables alone keeps everything stored. *)
Lemma keeps_same_store_query {X} (q : Sql X) :
  (∀ now d, (exec_sql q now d).2 = d) → keeps same_store (Query q).
Proof.
  intros Hq w. cbn [exec_eff]. destruct (next_fault w).
  - unfold same_store. destruct w; tauto.
  - specialize (Hq (clock w) (db w)).
    destruct (exec_sql q (clock w) (db w)) as [x d]. cbn [snd] in *. subst d.
    unfold same_store. destruct w; tauto.
Qed.

Lemma keeps_same_store_fetch text : keeps same_store (Fetch text).
Proof.
  intros w. cbn [exec_eff]. destruct (next_fault w); unfold same_store; destruct w; tauto.
Qed.

(** A statement keeps the fields it does not write. *)
Lemma keeps_same_outside_query {X} K (q : Sql X) :
  (∀ now d k, k ∉ K → state (exec_sql q now d).2 !! k = state d !! k) →
  keeps (same_outside K) (Query q).
Proof.
  intros Hq w k Hk. cbn [exec_eff]. destruct (next_fault w); [reflexivity|].
  specialize (Hq (clock w) (db w) k Hk).
  destruct (exec_sql q (clock w) (db w)) as [x d]. exact Hq.
Qed.

Lemma keeps_same_outside_fetch K text : keeps (same_outside K) (Fetch text).
Proof.
  intros w k Hk. cbn [exec_eff]. destruct (next_fault w); reflexivity.
Qed.

Lemma update_state_outside keys v (m : gmap string string) k :
  k ∉ keys → update_rows keys v m !! k = m !! k.
Proof.
  unfold update_rows. induction keys as [|k' keys IH]; intros Hk; [reflexivity|].
  cbn [foldr]. rewrite lookup_alter_ne by set_solver. apply IH. set_solver.
Qed.

Lemma update_state_inside keys v (m : gmap string string) k :
  k ∈ keys → is_Some (m !! k) → update_rows keys v m !! k = Some v.
Proof.
  induction keys as [|k' keys IH]; intros Hk [x Hx]; [inversion Hk|].
  unfold update_rows in *. cbn [foldr]. destruct (decide (k' = k)) as [->|Hne].
  - rewrite lookup_alter_eq.
    destruct (decide (k ∈ keys)) as [Hin|Hout].
    + rewrite IH by eauto. reflexivity.
    + fold (update_rows keys v m). rewrite update_state_outside, Hx by assumption. reflexivity.
  - rewrite lookup_alter_ne by assumption. apply IH; [|eauto].
    apply elem_of_cons in Hk as [Hk|Hk]; [congruence | exact Hk].
Qed.

Lemma preserves_query R `{!PreOrder R} {X} (q : Sql X) :
  keeps R (Query q) → preserves R (query q).
Proof. apply preserves_perform; assumption. Qed.

(** Walks a handler down to its effects. *)
Ltac frame :=
  repeat first
    [ apply preserves_tg; [apply _ |]
    | apply preserves_query; [apply _ |]
    | apply preserves_perform; [apply _ |]
    | apply preserves_bind; [apply _ | | intros ?]
    | apply preserves_try_catch; [apply _ | | intros ?]
    | apply preserves_if
    | apply preserves_ret; apply _
    | apply preserves_throw; apply _ ].

Lemma handleConfirmed_frame cmd : preserves (same_outside reset_keys) (handleConfirmed cmd).
Proof.
  unfold handleConfirmed, addLog. frame;
    try apply keeps_same_outside_fetch;
    apply keeps_same_outside_query; intros now d k Hk; try reflexivity;
    cbn [exec_sql snd set_state state]; apply update_state_outside;
    intros Hin; apply Hk; revert Hin; unfold reset_keys;
    rewrite !elem_of_cons, !elem_of_nil; tauto.
Qed.

Lemma idle_check_frame : preserves same_store idle_check.
Proof.
  unfold idle_check, getState. frame;
    try apply keeps_same_store_fetch;
    apply keeps_same_store_query; reflexivity.
Qed.

(** The stall check never rejects. *)
Lemma idle_check_returns w : (run idle_check w).1 = inl tt.
Proof.
  unfold idle_check. rewrite run_try_catch.
  destruct (run _ w) as [[[]|e] w']; reflexivity.
Qed.

Lemma is_true_iff v : is_true v = true ↔ v = Some "true".
Proof.
  destruct v as [s|]; cbn [is_true]; [|split; discriminate].
  rewrite String.eqb_eq. split; congruence.
Qed.

Lemma is_true_false v : v ≠ Some "true" → is_true v = false.
Proof. rewrite <- is_true_iff. apply not_true_is_false. Qed.

Lemma with_db_use_fault w : with_db (db w) (use_fault w) = use_fault w.
Proof. destruct w; reflexivity. Qed.

Lemma run_getState_any k w :
  run (getState k) w =
  match next_fault w with
  | Some e => (inr e, use_fault w)
  | None => (inl (field k w), use_fault w)
  end.
Proof.
  unfold getState. rewrite run_bind, run_query_any.
  destruct (next_fault w); [reflexivity|].
  cbn [exec_sql fst snd run]. rewrite with_db_use_fault. unfold field.
  destruct (state (db w) !! k); reflexivity.
Qed.


Lemma append_assoc (a b c : string) : (a +:+ b) +:+ c = a +:+ (b +:+ c).
Proof.
  induction a as [|x a IH]; [reflexivity|].
  change (String x ((a +:+ b) +:+ c) = String x (a +:+ (b +:+ c))).
  rewrite IH. reflexivity.
Qed.

(** ** The bootstrap *)

#[global] Instance grows_by_defaults_preorder : PreOrder grows_by_defaults.
Proof.
  split.
  - intros w. unfold grows_by_defaults. eauto.
  - intros w1 w2 w3 (A1 & B1 & C1 & D1) (A2 & B2 & C2 & D2).
    unfold grows_by_defaults. repeat split; [eauto | | congruence | congruence].
    intros k v H. destruct (B2 k v H) as [H'|H']; eauto.
Qed.

Lemma grows_use_fault w : grows_by_defaults w (use_fault w).
Proof. unfold grows_by_defaults, field. fields. eauto. Qed.

Lemma keeps_grows_insert k v :
  boot !! k = Some v → keeps grows_by_defaults (Query (InsertStateDoNothing k v)).
Proof.
  intros Hb w. cbn [exec_eff]. destruct (next_fault w); [apply grows_use_fault|].
  cbn [exec_sql snd]. unfold grows_by_defaults, field. fields.
  destruct (state (db w) !! k) eqn:E; [repeat split; eauto|].
  repeat split.
  - intros k' v' H. rewrite lookup_insert_ne; [exact H | congruence].
  - intros k' v' H. destruct (decide (k = k')) as [<-|Hne].
    + rewrite lookup_insert_eq in H. right. congruence.
    + rewrite lookup_insert_ne in H by assumption. eauto.
Qed.

Lemma keeps_grows_create name : keeps grows_by_defaults (Query (CreateTable name)).
Proof.
  intros w. cbn [exec_eff]. destruct (next_fault w); apply grows_use_fault.
Qed.

Lemma initDB_frame : preserves grows_by_defaults initDB.
Proof.
  unfold initDB. cbn [foldr defaults]. frame;
    first [ apply keeps_grows_create | apply keeps_grows_insert; reflexivity ].
Qed.

Lemma insert_absent_union (m M : gmap string string) k v :
  (match m !! k with Some _ => m | None => <[k:=v]> m end) ∪ M = m ∪ <[k:=v]> M.
Proof.
  apply map_eq. intros i. rewrite !lookup_union.
  destruct (decide (k = i)) as [<-|Hne].
  - rewrite lookup_insert_eq. destruct (m !! k) eqn:E.
    + rewrite E. destruct (M !! k); reflexivity.
    + rewrite lookup_insert_eq. destruct (M !! k); reflexivity.
  - rewrite (lookup_insert_ne M) by assumption.
    destruct (m !! k); [reflexivity|]. rewrite lookup_insert_ne by assumption. reflexivity.
Qed.

Lemma run_insert_defaults l : ∀ w,
  calm w →
  run (foldr (λ '(k, v) rest, query (InsertStateDoNothing k v);; rest) (Ret tt) l) w =
  (inl tt, with_db (set_state (λ m, m ∪ list_to_map l) (db w)) w).
Proof.
  induction l as [|[k v] l IH]; intros w Hw.
  - cbn [foldr run list_to_map]. f_equal.
    destruct w as [[st cl lg] ck sn pc fl]. unfold with_db, set_state. fields.
    rewrite (right_id_L ∅ (∪)). reflexivity.
  - cbn [foldr]. calm_step. rewrite IH by auto with calm. f_equal.
    destruct w as [[st cl lg] ck sn pc fl]. unfold with_db, set_state.
    cbn [exec_sql snd]. fields. rewrite insert_absent_union. reflexivity.
Qed.

Lemma run_initDB w :
  calm w → run initDB w = (inl tt, with_db (set_state (λ m, m ∪ boot) (db w)) w).
Proof.
  intros Hw. unfold initDB. do 3 (calm_step; cbn [exec_sql snd]; rewrite with_db_same).
  apply run_insert_defaults, Hw.
Qed.

(** ** The admin channel *)

Lemma calm_logged txt w : calm w → calm (logged txt w).
Proof. exact id. Qed.

#[export] Hint Resolve calm_logged : calm.

(** A text message of the operator of the examples is read as sent, trimmed. *)
Lemma from_operator_carries txt : carries (from_operator txt) "42" (Js.trim txt).
Proof.
  split; [reflexivity|]. split; [vm_compute; reflexivity|].
  unfold text_of, message_of, from_operator, telegram.
  destruct txt; reflexivity.
Qed.

(** What the handler does with a message it can read. *)
Lemma webhook_reads admin upd chat txt :
  carries upd chat txt →
  webhook admin upd =
  (rest ← try_catch
     (if negb (String.eqb chat admin) then done else
      addLog "tg_command" (Js.slice0 120 txt);;
      pending ← (if String.eqb txt "CONFIRM" then perform (GetPending chat)
                 else Ret None);
      match pending with
      | Some p =>
          perform (DeletePending chat);;
          now ← perform DateNow;
          if expiresAt p <? now then return_ (tg expired_text)
          else return_ (handleConfirmed (command p))
      | None => dispatch chat txt
      end)
     (λ e, tg ("Error: " +:+ e);; done);
   rest).
Proof.
  intros (Hm & Hc & Ht). unfold webhook. fold (message_of upd).
  rewrite Hm, Hc, Ht. reflexivity.
Qed.

(** An operator message that is not the confirmation token is logged and
    dispatched. *)
Lemma run_webhook_command admin upd txt w :
  calm w → carries upd admin txt → txt ≠ "CONFIRM" →
  run (webhook admin upd) w =
  run (rest ← try_catch (dispatch admin txt) (λ e, tg ("Error: " +:+ e);; done); rest)
      (logged txt w).
Proof.
  intros Hw Hs Hc. rewrite (webhook_reads admin upd admin txt Hs).
  rewrite String.eqb_refl. cbn [negb].
  apply String.eqb_neq in Hc. rewrite Hc.
  rewrite !run_bind, !run_try_catch. calm_step.
  rewrite run_bind. cbn [run]. reflexivity.
Qed.

(** A message that the handler cannot read makes it throw before it
    looks at the sender: the error is reported to the operator, and
    nothing is stored. *)
Lemma run_webhook_unreadable admin upd e w :
  calm w → unreadable upd e →
  run (webhook admin upd) w = (inl tt, with_sent (sent w ++ ["Error: " +:+ e])%list w).
Proof.
  intros Hw (Hm & H). unfold webhook. fold (message_of upd). rewrite Hm. cbn [negb].
  destruct H as [Hc | [[chat Hc] Ht]].
  - rewrite Hc. cbn [lift]. rewrite run_bind, run_try_catch. cbn [mbind Prog_bind bind run].
    rewrite run_bind, run_tg by assumption. reflexivity.
  - rewrite Hc, Ht. cbn [lift]. rewrite run_bind, run_try_catch.
    cbn [mbind Prog_bind bind run].
    rewrite run_bind, run_tg by assumption. reflexivity.
Qed.

Lemma run_settarget admin upd txt w :
  calm w → carries upd admin txt → command_of txt = "/settarget" →
  run (webhook admin upd) w =
  let w1 := logged txt w in
  let n := Js.parseInt (argument_of txt) in
  if Js.not_positive n then (inl tt, with_sent (sent w1 ++ [settarget_usage])%list w1)
  else
    let v := Js.toString (default 0 n) in
    let w2 := with_db (set_state (insert "target" v) (db w1)) w1 in
    let w3 := with_db (set_logs (λ l, (l ++ [{| event := "set_target"; detail := v;
                                               created_at := clock w |}])%list) (db w2)) w2 in
    (inl tt, with_sent (sent w3 ++ [settarget_ok (default 0 n)])%list w3).
Proof.
  intros Hw Hs Hcmd.
  assert (Hc : txt ≠ "CONFIRM").
  { intros E. rewrite E in Hcmd. vm_compute in Hcmd. discriminate. }
  rewrite (run_webhook_command admin upd txt) by assumption.
  unfold dispatch. fold (command_of txt) (argument_of txt).
  rewrite Hcmd. pick_branch. cbv zeta.
  rewrite run_bind, run_try_catch.
  destruct (Js.not_positive (Js.parseInt (argument_of txt))).
  - unfold return_. cbn [run]. rewrite run_tg by auto with calm. reflexivity.
  - do 2 calm_step. rewrite run_bind, run_tg by auto with calm. cbn [run]. reflexivity.
Qed.

(** ** Reset and its confirmation *)

#[global] Instance domain_grows_preorder : PreOrder domain_grows.
Proof. split; [intros w k; tauto | intros w1 w2 w3 H1 H2 k Hk; eauto]. Qed.

Lemma exec_sql_domain {X} (q : Sql X) now d k :
  is_Some (state d !! k) → is_Some (state (exec_sql q now d).2 !! k).
Proof.
  intros Hk. destruct q; cbn [exec_sql snd set_state set_clicks set_logs state]; try exact Hk.
  - destruct (state d !! k0) eqn:E; [exact Hk|].
    rewrite lookup_insert_is_Some. destruct (decide (k0 = k)); eauto.
  - rewrite lookup_insert_is_Some. destruct (decide (k0 = k)); eauto.
  - unfold update_rows. induction keys as [|k' keys IH]; [exact Hk|].
    cbn [foldr]. destruct (decide (k' = k)) as [->|Hne].
    + rewrite lookup_alter_eq. destruct IH as [x ->]. eexists; reflexivity.
    + rewrite lookup_alter_ne by assumption. exact IH.
Qed.

Lemma keeps_domain {X} (op : Eff X) : keeps domain_grows op.
Proof.
  intros w k Hk. unfold field in *.
  destruct op; cbn [exec_eff]; try exact Hk;
    destruct (next_fault w); try exact Hk.
  pose proof (exec_sql_domain q (clock w) (db w) k Hk) as H.
  destruct (exec_sql q (clock w) (db w)). exact H.
Qed.

(** No run of any handler deletes a state row. *)
Lemma run_domain {A} (m : Prog A) : preserves domain_grows m.
Proof.
  induction m as [a|e|X op k IH].
  - apply preserves_ret; apply _.
  - apply preserves_throw; apply _.
  - apply preserves_vis; [apply _ | apply keeps_domain | exact IH].
Qed.

Lemma initDB_bootstraps w : calm w → bootstrapped (run initDB w).2.
Proof.
  intros Hw k Hk. rewrite run_initDB by assumption. unfold field. fields. cbn [snd]. fields.
  rewrite lookup_union. destruct Hk as [v ->]. destruct (state (db w) !! k); eexists; reflexivity.
Qed.

Lemma run_reset_command admin upd txt w :
  calm w → carries upd admin txt → command_of txt = "/reset" →
  run (webhook admin upd) w =
  (inl tt, with_sent (sent w ++ [reset_warning_text])%list
             (with_pending (<[admin := reset_pending w]> (pendingConfirm w))
                (logged txt w))).
Proof.
  intros Hw Hs Hcmd.
  assert (Hc : txt ≠ "CONFIRM").
  { intros E. rewrite E in Hcmd. vm_compute in Hcmd. discriminate. }
  rewrite (run_webhook_command admin upd txt) by assumption.
  unfold dispatch. fold (command_of txt) (argument_of txt).
  rewrite Hcmd. pick_branch.
  rewrite run_bind, run_try_catch. unfold perform.
  cbn [mbind Prog_bind bind run exec_eff].
  change (bind (tg reset_warning_text) (λ _, done)) with (tg reset_warning_text;; done).
  rewrite run_bind, run_tg by auto with calm. reflexivity.
Qed.

Lemma run_handleConfirmed_reset w :
  calm w → run (handleConfirmed "reset") w = (inl tt, after_reset w).
Proof.
  intros Hw. unfold handleConfirmed. eqb_literals.
  do 5 calm_step. rewrite run_tg by auto with calm. reflexivity.
Qed.

Lemma run_confirm admin upd p w :
  calm w → carries upd admin "CONFIRM" →
  pendingConfirm w !! admin = Some p →
  run (webhook admin upd) w =
  let w1 := with_pending (delete admin (pendingConfirm w)) (logged "CONFIRM" w) in
  if expiresAt p <? clock w then (inl tt, with_sent (sent w1 ++ [expired_text])%list w1)
  else run (handleConfirmed (command p)) w1.
Proof.
  intros Hw Hs Hp. rewrite (webhook_reads admin upd admin "CONFIRM" Hs).
  rewrite String.eqb_refl. eqb_literals. cbn [negb].
  rewrite !run_bind, !run_try_catch. calm_step.
  unfold perform. cbn [mbind Prog_bind bind run exec_eff].
  fields. rewrite Hp. cbn [bind run exec_eff]. fields.
  fold (logged "CONFIRM" w).
  destruct (expiresAt p <? clock w); unfold return_; cbn [run];
    [rewrite run_tg by auto with calm|]; reflexivity.
Qed.

Lemma update_rows_is_Some keys v (m : gmap string string) k :
  is_Some (m !! k) → is_Some (update_rows keys v m !! k).
Proof.
  intros Hk. destruct (decide (k ∈ keys)).
  - rewrite update_state_inside by assumption. eexists; reflexivity.
  - rewrite update_state_outside by assumption. exact Hk.
Qed.

(** What the three UPDATEs of a reset leave in a field that has a row. *)
Lemma after_reset_fields w :
  bootstrapped w →
  field "count" (after_reset w) = Some "0"
  ∧ field "ca" (after_reset w) = Some ""
  ∧ field "blessed" (after_reset w) = Some ""
  ∧ field "decree" (after_reset w) = Some ""
  ∧ field "tide_warning" (after_reset w) = Some ""
  ∧ field "launched" (after_reset w) = Some "false".
Proof.
  intros Hb. unfold field, after_reset. fields.
  assert (Hrow : ∀ k, is_Some (boot !! k) → is_Some (state (db w) !! k)) by exact Hb.
  repeat split.
  - rewrite !update_state_outside by key_out.
    apply update_state_inside; [key_in | apply Hrow; eexists; reflexivity].
  - rewrite update_state_outside by key_out.
    apply update_state_inside; [key_in|].
    apply update_rows_is_Some, Hrow; eexists; reflexivity.
  - rewrite update_state_outside by key_out.
    apply update_state_inside; [key_in|].
    apply update_rows_is_Some, Hrow; eexists; reflexivity.
  - rewrite update_state_outside by key_out.
    apply update_state_inside; [key_in|].
    apply update_rows_is_Some, Hrow; eexists; reflexivity.
  - rewrite update_state_outside by key_out.
    apply update_state_inside; [key_in|].
    apply update_rows_is_Some, Hrow; eexists; reflexivity.
  - apply update_state_inside; [key_in|].
    do 2 apply update_rows_is_Some. apply Hrow; eexists; reflexivity.
Qed.

Lemma is_Some_insert (m : gmap string string) k k' v :
  is_Some (m !! k) → is_Some (<[k':=v]> m !! k).
Proof. rewrite lookup_insert_is_Some. destruct (decide (k' = k)); eauto. Qed.

(** ** The texts of the click notifications *)

Lemma append_cons x a b : String x a +:+ b = String x (a +:+ b).
Proof. reflexivity. Qed.

Lemma append_nil_r a : a +:+ "" = a.
Proof. induction a as [|x a IH]; [reflexivity|]. rewrite append_cons, IH. reflexivity. Qed.

Lemma occurs_append c a b : occurs c (a +:+ b) = occurs c a || occurs c b.
Proof.
  induction a as [|x a IH]; [reflexivity|].
  rewrite append_cons. cbn [occurs]. rewrite IH. apply orb_assoc.
Qed.

Lemma contains_occurs s sub c : contains s sub → occurs c sub = true → occurs c s = true.
Proof.
  intros (pre & post & ->) H. rewrite !occurs_append, H.
  rewrite orb_true_l. apply orb_true_r.
Qed.

Lemma contains_here sub post : contains (sub +:+ post) sub.
Proof. exists "", post. reflexivity. Qed.

Lemma contains_end pre sub : contains (pre +:+ sub) sub.
Proof. exists pre, "". rewrite append_nil_r. reflexivity. Qed.

Lemma contains_append_r a b sub : contains b sub → contains (a +:+ b) sub.
Proof. intros (pre & post & ->). exists (a +:+ pre), post. rewrite append_assoc. reflexivity. Qed.

Lemma contains_append_l a b sub : contains a sub → contains (a +:+ b) sub.
Proof.
  intros (pre & post & ->). exists pre, (post +:+ b). rewrite !append_assoc. reflexivity.
Qed.

Lemma mark_numeral c d : mark c → occurs c (NilEmpty.string_of_uint d) = false.
Proof.
  intros Hc. induction d; cbn [NilEmpty.string_of_uint occurs]; try reflexivity;
    rewrite IHd; destruct Hc as [-> | [-> | ->]]; reflexivity.
Qed.

Lemma mark_decimal c z : mark c → occurs c (Js.decimal z) = false.
Proof.
  intros Hc. destruct z as [|p|p].
  - destruct Hc as [-> | [-> | ->]]; reflexivity.
  - rewrite JsFacts.decimal_pos. apply mark_numeral, Hc.
  - rewrite JsFacts.decimal_neg. cbn [occurs]. rewrite mark_numeral by assumption.
    destruct Hc as [-> | [-> | ->]]; reflexivity.
Qed.

Lemma occurs_substring c s : ∀ a n, occurs c s = false → occurs c (substring a n s) = false.
Proof.
  induction s as [|x s IH]; intros a n H; [destruct a, n; reflexivity|].
  cbn [occurs] in H. apply orb_false_iff in H as [Hx Hs].
  destruct a as [|a]; cbn [substring].
  - destruct n as [|n]; [reflexivity|]. cbn [occurs]. rewrite Hx. apply IH, Hs.
  - apply IH, Hs.
Qed.

Lemma mark_zeros c n : mark c → occurs c (Js.zeros n) = false.
Proof.
  intros Hc. unfold Js.zeros. induction (Z.to_nat n) as [|k IH]; [reflexivity|].
  cbn [replicate Js.cat foldr]. fold (Js.cat (replicate k "0")).
  rewrite occurs_append, IH. destruct Hc as [-> | [-> | ->]]; reflexivity.
Qed.

Lemma mark_layout c s n : mark c → occurs c (Js.layout s n) = false.
Proof.
  intros Hc. pose proof (mark_decimal c s Hc) as Hd.
  assert (Hlit : occurs c "." = false ∧ occurs c "0." = false ∧ occurs c "e" = false
                 ∧ occurs c "-" = false ∧ occurs c "+" = false).
  { destruct Hc as [-> | [-> | ->]]; repeat split; reflexivity. }
  destruct Hlit as (H1 & H2 & H3 & H4 & H5).
  unfold Js.layout. cbv zeta.
  repeat match goal with
         | |- context [if ?b then _ else _] => destruct b
         end;
    rewrite ?occurs_append, ?occurs_substring, ?mark_zeros, ?mark_decimal, ?Hd, ?H1, ?H2,
      ?H3, ?H4, ?H5 by assumption; reflexivity.
Qed.

Lemma mark_fewest c fuel even LO X HI D n0 : ∀ k,
  mark c → occurs c (Js.fewest fuel even LO X HI D n0 k) = false.
Proof.
  induction fuel as [|fuel IH]; intros k Hc; [reflexivity|].
  cbn [Js.fewest].
  destruct (Js.candidate even LO X HI D k n0); [apply mark_layout, Hc|].
  destruct (Js.candidate even LO X HI D k (n0 + 1)); [apply mark_layout, Hc|].
  apply IH, Hc.
Qed.

Lemma mark_toString c z : mark c → occurs c (Js.toString z) = false.
Proof.
  intros Hc. unfold Js.toString.
  destruct (Z.abs z <? 2 ^ 53); [apply mark_decimal, Hc|].
  cbv zeta. rewrite occurs_append.
  assert (Hs : occurs c (if z <? 0 then "-" else "") = false).
  { destruct (z <? 0); destruct Hc as [-> | [-> | ->]]; reflexivity. }
  rewrite Hs. cbn [orb].
  destruct (2 ^ 1024 <=? Z.abs (Js.round64 z)).
  - destruct Hc as [-> | [-> | ->]]; reflexivity.
  - unfold Js.shortest. apply mark_fewest, Hc.
Qed.

Lemma mark_number c x : mark c → occurs c (Js.number_toString x) = false.
Proof.
  intros Hc. destruct x as [|[]|z]; cbn [Js.number_toString];
    [| | |apply mark_toString, Hc]; destruct Hc as [-> | [-> | ->]]; reflexivity.
Qed.

Lemma mark_progress_head c n t : mark c → occurs c (progress_head n t) = false.
Proof.
  intros Hc. unfold progress_head.
  rewrite !occurs_append, !mark_toString, mark_number by assumption.
  destruct Hc as [-> | [-> | ->]]; reflexivity.
Qed.

Lemma progress_halfway n t :
  contains (progress_text n t) halfway_text ↔ n = t / 2.
Proof.
  unfold progress_text. split.
  - intros H. apply (contains_occurs _ _ "H"%char) in H; [|reflexivity].
    destruct (Z.eqb_spec n (t / 2)) as [|Hne]; [assumption|].
    rewrite !occurs_append, mark_progress_head in H by (left; reflexivity).
    destruct (n =? 3 * t / 4), (n =? t - 10); discriminate H.
  - intros ->. rewrite Z.eqb_refl. apply contains_append_r, contains_here.
Qed.

Lemma progress_three_quarters n t :
  contains (progress_text n t) three_quarters_text ↔ n = 3 * t / 4.
Proof.
  unfold progress_text. split.
  - intros H. apply (contains_occurs _ _ "q"%char) in H; [|reflexivity].
    destruct (Z.eqb_spec n (3 * t / 4)) as [|Hne]; [assumption|].
    rewrite !occurs_append, mark_progress_head in H by (right; left; reflexivity).
    destruct (n =? t / 2), (n =? t - 10); discriminate H.
  - intros ->. rewrite Z.eqb_refl. do 2 apply contains_append_r. apply contains_here.
Qed.

Lemma progress_ten_remaining n t :
  contains (progress_text n t) ten_remaining_text ↔ n = t - 10.
Proof.
  unfold progress_text. split.
  - intros H. apply (contains_occurs _ _ (ascii_of_nat 226)) in H; [|reflexivity].
    destruct (Z.eqb_spec n (t - 10)) as [|Hne]; [assumption|].
    rewrite !occurs_append, mark_progress_head in H by (right; right; reflexivity).
    destruct (n =? t / 2), (n =? 3 * t / 4); discriminate H.
  - intros ->. rewrite Z.eqb_refl. do 2 apply contains_append_r. apply contains_end.
Qed.

Lemma progress_shows n t :
  contains (progress_text n t)
    ("<b>" +:+ Js.toString n +:+ " / " +:+ Js.toString t +:+ "</b> fed the tide pool ("
     +:+ Js.number_toString (Js.percent (Some n) (Some t)) +:+ "%)").
Proof.
  unfold progress_text, progress_head.
  apply contains_append_l. do 2 apply contains_append_r.
  apply contains_end.
Qed.

Lemma is_progress_text n t : is_progress (progress_text n t) = true.
Proof. unfold is_progress. vm_compute. reflexivity. Qed.
Lemma not_progress_blessed n : is_progress (blessed_text n) = false.
Proof. vm_compute. reflexivity. Qed.
Lemma not_progress_launched n : is_progress (launched_text n) = false.
Proof. vm_compute. reflexivity. Qed.
Lemma is_blessed_text n : is_blessed (blessed_text n) = true.
Proof. vm_compute. reflexivity. Qed.
Lemma not_blessed_progress n t : is_blessed (progress_text n t) = false.
Proof. vm_compute. reflexivity. Qed.
Lemma not_blessed_launched n : is_blessed (launched_text n) = false.
Proof. vm_compute. reflexivity. Qed.

Lemma blessed_is_iff b n :
  blessed_is b n = true ↔ ∃ s, b = Some s ∧ s ≠ "" ∧ Js.parseInt s = Some n.
Proof.
  unfold blessed_is. split.
  - destruct b as [[|c s]|]; cbn [Js.truthy andb]; try discriminate.
    cbn [Js.parseInt' mbind option_bind]. intros H.
    destruct (Js.parseInt (String c s)) as [v|] eqn:E; [|discriminate].
    apply Z.eqb_eq in H. subst v. exists (String c s).
    split; [reflexivity | split; [discriminate | exact E]].
  - intros (s & -> & Hs & Hp). destruct s as [|c s]; [congruence|].
    cbn [Js.truthy andb Js.parseInt' mbind option_bind]. rewrite Hp. apply Z.eqb_refl.
Qed.

Lemma progress_in_notifications n t b l m :
  m ∈ notifications n t b l → is_progress m = true →
  m = progress_text n t ∧ Z.rem n 10 = 0.
Proof.
  unfold notifications. rewrite !elem_of_app. intros [H|[H|H]] Hm.
  - destruct (Z.eqb_spec (Z.rem n 10) 0); [|inversion H].
    apply list_elem_of_singleton in H. tauto.
  - destruct (blessed_is b n); [|inversion H].
    apply list_elem_of_singleton in H. subst m.
    rewrite not_progress_blessed in Hm. discriminate.
  - destruct ((t <=? n) && negb (is_true l)); [|inversion H].
    apply list_elem_of_singleton in H. subst m.
    rewrite not_progress_launched in Hm. discriminate.
Qed.

Lemma blessed_in_notifications n t b l m :
  m ∈ notifications n t b l → is_blessed m = true →
  m = blessed_text n ∧ blessed_is b n = true.
Proof.
  unfold notifications. rewrite !elem_of_app. intros [H|[H|H]] Hm.
  - destruct (Z.rem n 10 =? 0); [|inversion H].
    apply list_elem_of_singleton in H. subst m.
    rewrite not_blessed_progress in Hm. discriminate.
  - destruct (blessed_is b n); [|inversion H].
    apply list_elem_of_singleton in H. tauto.
  - destruct ((t <=? n) && negb (is_true l)); [|inversion H].
    apply list_elem_of_singleton in H. subst m.
    rewrite not_blessed_launched in Hm. discriminate.
Qed.

(** ** Clicks one after the other *)

(** The counter text is read back as written while the counter is a safe
    integer. *)
Lemma count_after_click who w :
  Z.abs (count_of w + 1) < 2 ^ 53 → count_of (after_click who w) = count_of w + 1.
Proof.
  intros Hsafe.
  unfold count_of at 1. unfold field, after_click. fields.
  assert (H : ∀ m : gmap string string,
             (if (target_of w <=? count_of w + 1) && negb (is_true (state (db w) !! "launched"))
              then <["launched":="true"]> (<["count":=Js.toString (count_of w + 1)]> m)
              else <["count":=Js.toString (count_of w + 1)]> m) !! "count"
             = Some (Js.toString (count_of w + 1))).
  { intros m. destruct (_ && _); [rewrite lookup_insert_ne by done|]; apply lookup_insert_eq. }
  rewrite H. cbn [Js.parseInt' mbind option_bind].
  rewrite JsFacts.parseInt_toString by assumption.
  destruct (count_of w + 1); reflexivity.
Qed.

Lemma target_after_click who w : target_of (after_click who w) = target_of w.
Proof.
  unfold target_of at 1. unfold field, after_click. fields.
  destruct (_ && _); rewrite !lookup_insert_ne by done; reflexivity.
Qed.

(** A click that is run alone is rejected or leaves [after_click]. *)
Lemma serial_step who w w1 :
  calm w → serial [who] w = Some w1 → w1 = after_click who w.
Proof.
  intros Hw. cbn [serial]. unfold post_click, clickLimiter.
  destruct (Nat.ltb 0 (length (clicks_of who w))) eqn:Hc.
  - apply has_recent_click_iff in Hc.
    rewrite click_handler_already by assumption. discriminate.
  - assert (Hn : ¬ has_recent_click who w).
    { rewrite has_recent_click_iff, Hc. discriminate. }
    destruct (is_true (field "locked" w)) eqn:Hl.
    + apply is_true_iff in Hl. rewrite click_handler_locked by assumption. discriminate.
    + rewrite click_handler_accepted by assumption. cbn [accepted status Z.eqb Pos.eqb].
      congruence.
Qed.

Lemma serial_cons who rest w w' :
  calm w → serial (who :: rest) w = Some w' →
  serial [who] w = Some (after_click who w) ∧ serial rest (after_click who w) = Some w'.
Proof.
  intros Hw H. pose proof (serial_step who w) as Hs. cbn [serial] in *.
  destruct (run (post_click false who) w) as [[r|e] w1]; [|discriminate].
  destruct (status r =? 200); [|discriminate].
  rewrite (Hs w1 Hw eq_refl) in *. split; [reflexivity | assumption].
Qed.

(** Clicks accepted one after the other are all counted, while the
    counter is a safe integer. *)
Lemma serial_count ips : ∀ w w',
  calm w → - 2 ^ 53 < count_of w → count_of w + Z.of_nat (length ips) < 2 ^ 53 →
  serial ips w = Some w' → count_of w' = count_of w + Z.of_nat (length ips).
Proof.
  induction ips as [|who rest IH]; intros w w' Hw Hlo Hhi H.
  - cbn in H. injection H as <-. cbn [length]. lia.
  - apply serial_cons in H as [_ H]; [|assumption].
    cbn [length] in Hhi.
    assert (Hc : count_of (after_click who w) = count_of w + 1)
      by (apply count_after_click; lia).
    rewrite (IH (after_click who w) w' Hw) by (assumption || lia).
    rewrite Hc. cbn [length]. lia.
Qed.

Lemma is_launched_text n : is_launched (launched_text n) = true.
Proof. vm_compute. reflexivity. Qed.
Lemma not_launched_progress n t : is_launched (progress_text n t) = false.
Proof. vm_compute. reflexivity. Qed.
Lemma not_launched_blessed n : is_launched (blessed_text n) = false.
Proof. vm_compute. reflexivity. Qed.

Lemma launches_after_click who w :
  launches (after_click who w) =
  (launches w ++
   (if (target_of w <=? count_of w + 1) && negb (is_true (field "launched" w))
    then [launched_text (count_of w + 1)] else []))%list.
Proof.
  unfold launches, after_click, notifications. fields. rewrite !filter_app. f_equal.
  assert (Hnil : filter (λ m, is_launched m = true) [] = @nil string) by reflexivity.
  assert (Hno : ∀ m, is_launched m = false → filter (λ m, is_launched m = true) [m] = []).
  { intros m Hm. rewrite filter_cons_False; [reflexivity | congruence]. }
  assert (Hyes : ∀ m, is_launched m = true → filter (λ m, is_launched m = true) [m] = [m]).
  { intros m Hm. rewrite filter_cons_True by assumption. reflexivity. }
  destruct (Z.rem _ 10 =? 0), (blessed_is _ _), (_ && _);
    rewrite ?Hnil, ?(Hno _ (not_launched_progress _ _)), ?(Hno _ (not_launched_blessed _)),
      ?(Hyes _ (is_launched_text _)); reflexivity.
Qed.

Lemma launched_after_click who w :
  field "launched" (after_click who w) =
  if (target_of w <=? count_of w + 1) && negb (is_true (field "launched" w))
  then Some "true" else field "launched" w.
Proof.
  unfold field, after_click. fields.
  destruct (_ && _); [apply lookup_insert_eq | apply lookup_insert_ne; done].
Qed.

(** Clicks run one after the other announce the launch at most once, and
    not at all once [launched] is the text true. *)
Lemma serial_launch_once ips : ∀ w w',
  calm w → serial ips w = Some w' →
  (length (launches w') ≤
   length (launches w) + (if is_true (field "launched" w) then 0 else 1))%nat.
Proof.
  induction ips as [|who rest IH]; intros w w' Hw H.
  - cbn in H. injection H as <-. lia.
  - apply serial_cons in H as [_ H]; [|assumption].
    specialize (IH (after_click who w) w' Hw H).
    rewrite launches_after_click, launched_after_click in IH.
    destruct (is_true (field "launched" w)) eqn:Hl.
    + rewrite andb_false_r, app_nil_r, Hl in IH. exact IH.
    + rewrite andb_true_r in IH. destruct (target_of w <=? count_of w + 1).
      * rewrite length_app in IH. cbn in IH. lia.
      * rewrite app_nil_r, Hl in IH. exact IH.
Qed.

(** A click run alone sets [launched] only when the counter has reached
    the target, and never away from true. *)
Lemma launched_transition who w :
  field "launched" (after_click who w) ≠ field "launched" w →
  is_true (field "launched" w) = false
  ∧ target_of w ≤ count_of w + 1
  ∧ field "launched" (after_click who w) = Some "true".
Proof.
  rewrite launched_after_click.
  destruct (target_of w <=? count_of w + 1) eqn:Ht;
    destruct (is_true (field "launched" w)); cbn [andb negb]; try congruence.
  intros _. apply Z.leb_le in Ht. auto.
Qed.

(** * The claims *)

(** ** C1 and C2: clicks in flight together *)

(** C1 fails on the code.  Two clicks from different addresses against a
    fresh pool (count 0), both accepted, scheduled so that each reads
    [count] before either writes it: both answer count 1, two click
    records are written, and [count] ends at 1 instead of 2.  (Run one
    after the other, accepted clicks are all counted: [serial_count].) *)
Lemma concurrent_clicks_lose_an_update :
  (λ '(rs, w'), (rs, field "count" w', length (clicks (db w'))))
    <$> outcome both_read_first two_clicks w_fresh
  = Some ([click_ok 1 100 false; click_ok 1 100 false], Some "1", 2%nat).
Proof. vm_compute. reflexivity. Qed.

(** C2 fails on the code.  Two clicks against a pool one short of its
    target: the first has read [launched] (false) when the second runs
    from start to end, reads false as well, sets the flag and announces
    the launch; then the first sets the flag again and announces the
    launch a second time.  (Run one after the other, clicks announce the
    launch at most once: [serial_launch_once], [launched_transition].) *)
Lemma launch_announced_twice :
  (λ '(rs, w'), (rs, launches w', field "launched" w'))
    <$> outcome overtaken_at_launch two_clicks w_99
  = Some ([click_ok 100 100 true; click_ok 101 100 true],
          [launched_text 101; launched_text 100], Some "true").
Proof. vm_compute. reflexivity. Qed.

(** ** C3: /reset and CONFIRM *)

(** C3.  The operator sends /reset in the world [w0]; later, in a world
    [w1] whose pending entry for the operator is still the one /reset
    stored and whose state table has the rows of the bootstrap, the
    operator sends exactly CONFIRM.  If the clock of [w1] is not past the
    expiry (60 seconds after /reset), then count is 0, the fields ca,
    blessed, decree and tide_warning are empty, launched is false and the
    click table is empty.  If it is past the expiry, no state field
    changes, no click record is deleted, and the operator is sent the
    notice that the confirmation expired and nothing else. *)
Theorem reset_then_confirm admin reset_upd reset_txt confirm_upd w0 w1 :
  calm w0 → carries reset_upd admin reset_txt → command_of reset_txt = "/reset" →
  let wr := (run (webhook admin reset_upd) w0).2 in
  calm w1 → bootstrapped w1 →
  pendingConfirm w1 !! admin = pendingConfirm wr !! admin →
  carries confirm_upd admin "CONFIRM" →
  let w2 := (run (webhook admin confirm_upd) w1).2 in
  (clock w1 ≤ clock w0 + 60000 →
     field "count" w2 = Some "0"
     ∧ field "ca" w2 = Some ""
     ∧ field "blessed" w2 = Some ""
     ∧ field "decree" w2 = Some ""
     ∧ field "tide_warning" w2 = Some ""
     ∧ field "launched" w2 = Some "false"
     ∧ clicks (db w2) = [])
  ∧ (clock w0 + 60000 < clock w1 →
     state (db w2) = state (db w1)
     ∧ clicks (db w2) = clicks (db w1)
     ∧ sent w2 = (sent w1 ++ ["Confirmation expired. Send the command again."])%list).
Proof.
  intros Hw0 Hs0 Hcmd. cbv zeta.
  rewrite (run_reset_command admin reset_upd reset_txt) by assumption.
  cbn [snd]. fields. rewrite lookup_insert_eq.
  intros Hw1 Hboot Hp Hs1.
  rewrite (run_confirm admin confirm_upd (reset_pending w0) w1) by assumption.
  cbv zeta. cbn [reset_pending expiresAt command]. split.
  - intros Hin. rewrite (proj2 (Z.ltb_ge (clock w0 + 60000) (clock w1))) by lia.
    rewrite run_handleConfirmed_reset by auto with calm. cbn [snd].
    pose proof (after_reset_fields
                  (with_pending (delete admin (pendingConfirm w1)) (logged "CONFIRM" w1)))
      as H.
    destruct H as (H1 & H2 & H3 & H4 & H5 & H6); [exact Hboot|].
    repeat split; assumption.
  - intros Hout. rewrite (proj2 (Z.ltb_lt (clock w0 + 60000) (clock w1))) by lia.
    cbn [snd]. fields. repeat split.
Qed.

Lemma reset_then_confirm_witness :
  field "count" (run (webhook "42" m_confirm)
                   (later 30000 (run (webhook "42" m_reset) w_busy).2)).2 = Some "0"
  ∧ field "count" (run (webhook "42" m_confirm)
                     (later 61000 (run (webhook "42" m_reset) w_busy).2)).2 = Some "57"
  ∧ last (sent (run (webhook "42" m_confirm)
                  (later 61000 (run (webhook "42" m_reset) w_busy).2)).2)
    = Some "Confirmation expired. Send the command again.".
Proof.
  assert (Hb : ∀ d, bootstrapped (later d (run (webhook "42" m_reset) w_busy).2)).
  { intros d k Hk.
    assert (Hboot : is_Some (field k w_busy)).
    { unfold field, w_busy. fields. do 4 apply is_Some_insert. exact Hk. }
    exact (run_domain (webhook "42" m_reset) w_busy k Hboot). }
  split.
  - destruct (reset_then_confirm "42" m_reset "/reset" m_confirm w_busy
                (later 30000 (run (webhook "42" m_reset) w_busy).2)
                eq_refl (from_operator_carries "/reset") eq_refl eq_refl (Hb 30000) eq_refl
                (from_operator_carries "CONFIRM"))
      as [Hin _].
    destruct Hin as (Hc & _); [vm_compute; discriminate | exact Hc].
  - destruct (reset_then_confirm "42" m_reset "/reset" m_confirm w_busy
                (later 61000 (run (webhook "42" m_reset) w_busy).2)
                eq_refl (from_operator_carries "/reset") eq_refl eq_refl (Hb 61000) eq_refl
                (from_operator_carries "CONFIRM"))
      as [_ Hout].
    destruct Hout as (Hst & _ & Hsent); [reflexivity|].
    split; [unfold field; rewrite Hst; reflexivity|].
    rewrite Hsent. apply last_snoc.
Defined.

(** ** C4: rejected clicks *)

(** C4, amended.  A click request whose address has a click record within
    the trailing 24 hours, or that the rate limiter turns away, is answered
    429 with the body [{error: already_clicked}]; a request that passes
    both checks while [locked] is the text true is answered 423 with the
    body [{error: locked, message: lock_msg}].  In both cases the world is
    left exactly as it was: no field of the state table changes, no click
    record and no log entry is written, nothing is sent. *)
Theorem click_rejections over_limit who w :
  calm w →
  ((over_limit = true ∨ has_recent_click who w) →
   run (post_click over_limit who) w = (inl already_clicked, w))
  ∧ (over_limit = false → ¬ has_recent_click who w → field "locked" w = Some "true" →
     run (post_click over_limit who) w = (inl (locked_out w), w)).
Proof.
  intros Hw. split.
  - intros [-> | Hc]; [reflexivity|].
    destruct over_limit; [reflexivity|]. apply click_handler_already; assumption.
  - intros -> Hc Hl. apply click_handler_locked; assumption.
Qed.

Lemma click_rejections_witness :
  run (post_click false "203.0.113.7") w_locked = (inl already_clicked, w_locked)
  ∧ run (post_click false "198.51.100.2") w_locked = (inl (locked_out w_locked), w_locked).
Proof.
  split.
  - apply (click_rejections false "203.0.113.7" w_locked eq_refl). right.
    exists {| ip := "203.0.113.7"; clicked_at := 1000 |}.
    split; [left | split; reflexivity].
  - apply (click_rejections false "198.51.100.2" w_locked eq_refl); [reflexivity| |reflexivity].
    intros (c & Hin & Hip & _). apply list_elem_of_singleton in Hin. subst c. discriminate.
Defined.

(** C4 as stated fails where both rejections apply: the pool is locked
    and the caller has clicked within 24 hours, and the answer is 429, not
    423. *)
Lemma locked_request_answered_429 :
  calm w_locked
  ∧ field "locked" w_locked = Some "true"
  ∧ (run (post_click false "203.0.113.7") w_locked).1 = inl already_clicked
  ∧ status already_clicked ≠ 423.
Proof. repeat split; vm_compute; congruence. Qed.

(** ** C5: the notifications of an accepted click *)

(** C5, amended.  An accepted click that brings the counter to [n], with
    target [t] and blessed value [b], sends a progress notification if and
    only if [n] is a multiple of 10.  That notification shows [n], [t] and
    the percentage as the server computes it, [Math.round((n/t)*100)] in
    binary64; it has the halfway text if and only if [n = floor(t/2)], the
    three-quarters text if and only if [n = floor(3t/4)], and the
    10-remaining text if and only if [n = t - 10].  A blessed notification
    is sent if and only if [b] is a non-empty text that [parseInt] reads as
    [n]. *)
Theorem click_notifications who w :
  calm w → ¬ has_recent_click who w → field "locked" w ≠ Some "true" →
  let n := count_of w + 1 in
  let t := target_of w in
  let b := field "blessed" w in
  let new := notifications n t b (field "launched" w) in
  sent (run (post_click false who) w).2 = (sent w ++ new)%list
  ∧ ((∃ m, m ∈ new ∧ is_progress m = true) ↔ (10 | n))
  ∧ (∀ m, m ∈ new → is_progress m = true →
       m = progress_text n t
       ∧ contains m ("<b>" +:+ Js.toString n +:+ " / " +:+ Js.toString t
                     +:+ "</b> fed the tide pool ("
                     +:+ Js.number_toString (Js.percent (Some n) (Some t)) +:+ "%)")
       ∧ (contains m halfway_text ↔ n = t / 2)
       ∧ (contains m three_quarters_text ↔ n = 3 * t / 4)
       ∧ (contains m ten_remaining_text ↔ n = t - 10))
  ∧ ((∃ m, m ∈ new ∧ is_blessed m = true)
     ↔ ∃ s, b = Some s ∧ s ≠ "" ∧ Js.parseInt s = Some n).
Proof.
  intros Hw Hc Hl. cbv zeta. apply is_true_false in Hl.
  unfold post_click, clickLimiter.
  rewrite click_handler_accepted by assumption. cbn [snd after_click sent].
  split; [reflexivity|]. split; [|split].
  - rewrite <- Z.rem_divide by discriminate. split.
    + intros (m & Hin & Hm). eapply progress_in_notifications; eassumption.
    + intros Hn. exists (progress_text (count_of w + 1) (target_of w)).
      split; [|apply is_progress_text].
      unfold notifications. rewrite Hn. apply elem_of_app. left. left.
  - intros m Hin Hm.
    destruct (progress_in_notifications _ _ _ _ _ Hin Hm) as [-> _].
    split; [reflexivity|]. split; [apply progress_shows|].
    split; [apply progress_halfway|].
    split; [apply progress_three_quarters | apply progress_ten_remaining].
  - rewrite <- blessed_is_iff. split.
    + intros (m & Hin & Hm). eapply blessed_in_notifications; eassumption.
    + intros Hb. exists (blessed_text (count_of w + 1)).
      split; [|apply is_blessed_text].
      unfold notifications. rewrite Hb. apply elem_of_app. right.
      apply elem_of_app. left. left.
Qed.

Lemma click_notifications_witness :
  sent (run (post_click false "203.0.113.7") w_59).2
  = [progress_text 60 100; blessed_text 60]
  ∧ ¬ contains (progress_text 60 100) halfway_text.
Proof.
  assert (Hc : ¬ has_recent_click "203.0.113.7" w_59).
  { intros (c & Hin & _). inversion Hin. }
  destruct (click_notifications "203.0.113.7" w_59 eq_refl Hc) as (Hs & _ & Hp & _);
    [discriminate|].
  split; [rewrite Hs; reflexivity|].
  destruct (Hp (progress_text 60 100)) as (_ & _ & Hh & _);
    [left | reflexivity |].
  intros H. apply Hh in H. discriminate H.
Defined.

(** C5 as stated fails on the percentage: at click 230 of 400 the exact
    ratio is 57.5 percent, which rounds to 58, while the quotient 230/400
    is a double just below 0.575 and the notification shows 57. *)
Lemma percentage_rounds_the_double :
  sent (run (post_click false "203.0.113.7") w_229).2
  = ["🌊 <b>Tide Update</b>" +:+ nl +:+ nl +:+ "<b>230 / 400</b> fed the tide pool (57%)"]
  ∧ Js.percent (Some 230) (Some 400) = Js.Int 57
  ∧ nearest_percent 230 400 = 58.
Proof. repeat split; vm_compute; reflexivity. Qed.

(** ** C6: messages from other chats *)




(** ** C7: the stall check *)

(** C7.  A run of the stall check never rejects and changes nothing that
    is stored, whatever call fails.  If launched is the text true it sends
    nothing.  Otherwise, with the store and the channel answering, it
    sends one stall notification, whose text gives the count and the
    target as they are stored (null for a missing row), exactly when no
    click record lies in the trailing three hours, and nothing when one
    does. *)
Theorem idle_check_spec w :
  let r := run idle_check w in
  r.1 = inl tt
  ∧ same_store w r.2
  ∧ (field "launched" w = Some "true" → sent r.2 = sent w)
  ∧ (calm w → field "launched" w ≠ Some "true" →
     (clicks_within 3 w = [] →
      sent r.2 =
      (sent w ++ ["😴 <b>Tide stalling</b>" +:+ nl +:+ nl +:+ "No offerings in 3 hours." +:+ nl
                  +:+ "Count: <b>" +:+ default "null" (field "count" w) +:+ "/"
                  +:+ default "null" (field "target" w) +:+ "</b>" +:+ nl +:+ nl
                  +:+ "Post on X or use /decree to stir activity."])%list)
     ∧ (clicks_within 3 w ≠ [] → sent r.2 = sent w)).
Proof.
  cbv zeta. split; [apply idle_check_returns|].
  split; [apply idle_check_frame|].
  split.
  - intros Hl. unfold idle_check. rewrite run_try_catch, run_bind, run_getState_any.
    destruct (next_fault w); [destruct w; reflexivity|].
    rewrite Hl. destruct w; reflexivity.
  - intros Hw Hl. apply is_true_false in Hl.
    unfold idle_check. rewrite run_try_catch. calm_step. rewrite Hl. calm_step.
    cbn [exec_sql fst snd]. fold (clicks_within 3 w). rewrite with_db_same.
    rewrite JsFacts.parseInt_decimal.
    split.
    + intros ->. cbn [length]. rewrite bool_decide_eq_true_2 by reflexivity.
      do 2 calm_step. rewrite run_tg by assumption. reflexivity.
    + intros Hne. rewrite bool_decide_eq_false_2; [reflexivity|].
      intros H. assert (H0 : Js.round64 (Z.of_nat (length (clicks_within 3 w))) = 0) by congruence.
      apply (proj1 (JsFacts.round64_zero _)) in H0.
      apply Hne, length_zero_iff_nil. lia.
Qed.

Lemma idle_check_spec_witness :
  ((run idle_check w_launched_down).1 = inl tt
   ∧ sent (run idle_check w_launched_down).2 = [])
  ∧ sent (run idle_check w_quiet).2
    = ["😴 <b>Tide stalling</b>

No offerings in 3 hours.
Count: <b>57/100</b>

Post on X or use /decree to stir activity."]
  ∧ sent (run idle_check w_active).2 = [].
Proof.
  split; [|split].
  - destruct (idle_check_spec w_launched_down) as (Hr & _ & H & _).
    split; [exact Hr|]. rewrite H; reflexivity.
  - destruct (idle_check_spec w_quiet) as (_ & _ & _ & H).
    destruct H as [H _]; [reflexivity | discriminate |].
    rewrite H; reflexivity.
  - destruct (idle_check_spec w_active) as (_ & _ & _ & H).
    destruct H as [_ H]; [reflexivity | discriminate |].
    rewrite H; [reflexivity | vm_compute; discriminate].
Defined.

(** ** C8: /settarget *)

(** C8, amended.  For an operator message whose command is /settarget:
    if the argument parses to a number [n] of at least 1, the target field
    is set to [String(n)] and no other state field changes; for [n] below
    2^53 that text is the decimal numeral of [n] and the server reads [n]
    back as the target.  If the argument is missing, does not parse, or
    parses to less than 1, no state field changes and the operator is sent
    the usage notification. *)
Theorem settarget_spec admin upd txt w :
  calm w → carries upd admin txt → command_of txt = "/settarget" →
  let arg := argument_of txt in
  let w' := (run (webhook admin upd) w).2 in
  (∀ n, Js.parseInt arg = Some n → 1 ≤ n →
     field "target" w' = Some (Js.toString n)
     ∧ (∀ k, k ≠ "target" → field k w' = field k w)
     ∧ (n < 2 ^ 53 → field "target" w' = Some (Js.decimal n) ∧ target_of w' = n))
  ∧ ((Js.parseInt arg = None ∨ ∃ n, Js.parseInt arg = Some n ∧ n < 1) →
     state (db w') = state (db w)
     ∧ sent w' = (sent w ++ ["Usage: /settarget 150"])%list).
Proof.
  intros Hw Hs Hcmd. cbv zeta.
  rewrite (run_settarget admin upd txt) by assumption. cbv zeta. split.
  - intros n Hn Hpos. rewrite Hn. cbn [Js.not_positive default id].
    rewrite (proj2 (Z.eqb_neq n 0)), (proj2 (Z.ltb_ge n 1)) by lia.
    cbn [orb snd]. unfold target_of, field. fields.
    rewrite lookup_insert_eq. split; [reflexivity|]. split.
    + intros k Hk. rewrite lookup_insert_ne by congruence. reflexivity.
    + intros Hsafe. rewrite JsFacts.toString_safe by lia. split; [reflexivity|].
      cbn [Js.parseInt' mbind option_bind].
      rewrite JsFacts.parseInt_decimal, JsFacts.round64_safe by lia.
      destruct n; [lia | reflexivity | reflexivity].
  - intros Hbad.
    assert (Hnp : Js.not_positive (Js.parseInt (argument_of txt)) = true).
    { destruct Hbad as [-> | (n & -> & Hn)]; [reflexivity|].
      cbn [Js.not_positive]. rewrite (proj2 (Z.ltb_lt n 1)) by lia. apply orb_true_r. }
    rewrite Hnp. cbn [snd]. fields. split; reflexivity.
Qed.

Lemma settarget_spec_witness :
  field "target" (run (webhook "42" (from_operator "/settarget 150")) w_busy).2 = Some "150"
  ∧ field "target" (run (webhook "42" (from_operator "/SetTarget abc")) w_busy).2 = Some "100"
  ∧ sent (run (webhook "42" (from_operator "/SetTarget abc")) w_busy).2
    = ["Usage: /settarget 150"].
Proof.
  destruct (settarget_spec "42" (from_operator "/settarget 150") "/settarget 150" w_busy
              eq_refl (from_operator_carries "/settarget 150") eq_refl)
    as [Hok _].
  destruct (settarget_spec "42" (from_operator "/SetTarget abc") "/SetTarget abc" w_busy
              eq_refl (from_operator_carries "/SetTarget abc") eq_refl)
    as [_ Hbad].
  destruct (Hok 150 eq_refl) as (_ & _ & Ht); [lia|].
  destruct Ht as [Ht _]; [lia|].
  destruct Hbad as (Hst & Hsent); [left; reflexivity|].
  split; [exact Ht|]. split; [|exact Hsent].
  unfold field. rewrite Hst. reflexivity.
Defined.

(** C8 as stated fails past the integers that a binary64 number holds.
    The argument 9007199254740993 (2^53 + 1) is a positive integer, and
    the target becomes 9007199254740992.  From 10^21 on the number prints
    in exponent notation: the target field holds the text 1e+21 and the
    server reads the target back as 1. *)
Lemma settarget_past_the_numerals :
  (Js.spelled (argument_of "/settarget 9007199254740993") = Some 9007199254740993
   ∧ target_of (run (webhook "42" (from_operator "/settarget 9007199254740993")) w_busy).2
     = 9007199254740992)
  ∧ (Js.spelled (argument_of "/settarget 1000000000000000000000") = Some (10 ^ 21)
     ∧ field "target"
         (run (webhook "42" (from_operator "/settarget 1000000000000000000000")) w_busy).2
       = Some "1e+21"
     ∧ target_of
         (run (webhook "42" (from_operator "/settarget 1000000000000000000000")) w_busy).2
       = 1).
Proof. repeat split; vm_compute; reflexivity. Qed.

(** ** C9: the bootstrap *)

(** C9.  Whatever the store holds, and whatever call fails, [initDB] never
    changes the value of a state field that is present, and a field that
    was absent is afterwards absent or holds its default.  With the store
    answering, every absent field of the default set receives its default
    (the state table becomes the old one completed by the defaults), and a
    second run leaves the world of the first run as it is. *)
Theorem initDB_idempotent w :
  let w' := (run initDB w).2 in
  (∀ k v, field k w = Some v → field k w' = Some v)
  ∧ (∀ k v, field k w = None → field k w' = Some v → boot !! k = Some v)
  ∧ (calm w →
     state (db w') = state (db w) ∪ boot
     ∧ (∀ k, field k w = None → field k w' = boot !! k)
     ∧ run initDB w' = (inl tt, w')).
Proof.
  cbv zeta. pose proof (initDB_frame w) as (Hkeep & Hnew & _ & _).
  split; [exact Hkeep|]. split.
  - intros k v Hnone Hsome. destruct (Hnew k v Hsome) as [H|H]; congruence.
  - intros Hw. rewrite run_initDB by assumption. cbn [snd].
    split; [reflexivity|]. split.
    + intros k Hk. unfold field in *. fields. rewrite lookup_union, Hk.
      destruct (boot !! k); reflexivity.
    + rewrite run_initDB by auto with calm. f_equal.
      destruct w as [[st cl lg] ck sn pc fl]. unfold with_db, set_state. fields.
      rewrite <- (assoc_L (∪)), (idemp_L (∪)). reflexivity.
Qed.

Lemma initDB_idempotent_witness :
  field "target" (run initDB w_partial).2 = Some "150"
  ∧ field "blessed" (run initDB w_partial).2 = Some ""
  ∧ field "count" (run initDB w_partial_down).2 = Some "57"
  ∧ run initDB (run initDB w_partial).2 = (inl tt, (run initDB w_partial).2).
Proof.
  destruct (initDB_idempotent w_partial) as (Hkeep & _ & Hcalm).
  destruct (Hcalm eq_refl) as (_ & Hnew & Htwice).
  destruct (initDB_idempotent w_partial_down) as (Hkeep' & _).
  split; [apply Hkeep; reflexivity|].
  split; [rewrite Hnew; reflexivity|].
  split; [apply Hkeep'; reflexivity | exact Htwice].
Defined.

(** ** C10: what a confirmed reset leaves alone *)

(** C10.  Running the confirmed reset command, to its end or up to a
    failing call, leaves every state field other than count, ca, blessed,
    decree, tide_warning and launched with the value it had; in particular
    target, locked and lock_msg keep their values. *)
Theorem reset_keeps_other_fields w :
  let w' := (run (handleConfirmed "reset") w).2 in
  (∀ k, k ∉ reset_keys → field k w' = field k w)
  ∧ field "target" w' = field "target" w
  ∧ field "locked" w' = field "locked" w
  ∧ field "lock_msg" w' = field "lock_msg" w.
Proof.
  pose proof (handleConfirmed_frame "reset" w) as H. cbv zeta.
  split; [exact H|].
  repeat split; apply H; unfold reset_keys;
    rewrite !elem_of_cons, !elem_of_nil; intuition discriminate.
Qed.

Lemma reset_keeps_other_fields_witness :
  field "target" (run (handleConfirmed "reset") w_locked).2 = Some "100"
  ∧ field "locked" (run (handleConfirmed "reset") w_locked).2 = Some "true".
Proof.
  destruct (reset_keeps_other_fields w_locked) as (_ & Ht & Hl & _).
  split; [rewrite Ht | rewrite Hl]; reflexivity.
Defined.
